(** * Quotes aggregator: idempotent creation and resilient pricing

    A shallow embedding of the NestJS service
    ([idempotency.interceptor.ts], [idempotency.service.ts],
    [quotes.service.ts]) and the properties its design document states
    about it, followed by the code around it ([quotes.controller.ts],
    [http-exception.filter.ts], [request-id.interceptor.ts],
    [auth.guard.ts], [publisher.service.ts]) and properties read off
    that code.

    Conventions of the embedding:
    - a JS [Map<string, V>], and an object read under a fixed name, are
      [gmap string V]; an object literal read under a computed name
      ([RATES]) is the [gmap] of its own properties read through
      [JsObject.get_property], which also finds what it inherits from
      [Object.prototype];
    - [Date.now()] is an integer number of milliseconds, passed in as an
      explicit argument where the code reads the clock;
    - a JS [number] that carries money is an IEEE binary64 value, Rocq's
      primitive [float], so that [*], [/] and [Math.round] round as they
      do in the runtime;
    - [Math.random()] and [uuidv4()] are arguments of the functions that
      call them;
    - a thrown exception is a value of [Exception]; a function that may
      throw returns a sum. *)

From Stdlib Require Import ZArith Floats Ascii String.
From stdpp Require Import gmap strings list.

#[local] Set Warnings "-inexact-float,-register-all".
#[local] Open Scope Z_scope.
#[local] Open Scope string_scope.

(** ** Exceptions of the HTTP layer *)

Module Http.

(** The structured payload every exception of this service carries:
    [{ status, code, error, message }]. *)
Record ErrorBody := mkErrorBody {
  status : Z;
  code : string;
  error : string;
  message : string
}.

(** [HttpException] with its status and response; any other throwable
    is an [Error] with a message. [BadRequestException] and
    [NotFoundException] are the subclasses with status 400 and 404. *)
Inductive Exception :=
| HttpException (httpStatus : Z) (response : ErrorBody)
| Error (msg : string).

Definition BadRequestException (b : ErrorBody) : Exception := HttpException 400 b.
Definition NotFoundException (b : ErrorBody) : Exception := HttpException 404 b.

Definition getStatus (e : Exception) : option Z :=
  match e with HttpException s _ => Some s | Error _ => None end.

Definition getCode (e : Exception) : option string :=
  match e with HttpException _ b => Some (code b) | Error _ => None end.

End Http.

(** ** The regular expression [UUID_V4] *)

Module Regex.

(** A member of a bracket class: one character or a range. *)
Inductive Item :=
| Lit (c : ascii)
| Rng (lo hi : ascii).

(** A class repeated a fixed number of times: [[0-9a-f]{8}]. A literal
    character of the pattern is a one-member class repeated once. *)
Record Piece := mkPiece { cls : list Item; count : nat }.

Definition code_of (c : ascii) : nat := nat_of_ascii c.

Definition in_range (lo hi c : ascii) : bool :=
  (code_of lo <=? code_of c)%nat && (code_of c <=? code_of hi)%nat.

Definition is_upper (c : ascii) : bool := in_range "A" "Z" c.
Definition is_lower (c : ascii) : bool := in_range "a" "z" c.

(** The other case of an ASCII letter; any other character is its own
    only case variant among the characters an ASCII class can hold
    (without the [u] flag, canonicalization never maps a character
    above 127 to one below 128). *)
Definition swapcase (c : ascii) : ascii :=
  if is_upper c then ascii_of_nat (code_of c + 32)
  else if is_lower c then ascii_of_nat (code_of c - 32)
  else c.

Definition item_matches (ignoreCase : bool) (c : ascii) (i : Item) : bool :=
  match i with
  | Lit d => bool_decide (c = d) || (ignoreCase && bool_decide (swapcase c = d))
  | Rng lo hi => in_range lo hi c || (ignoreCase && in_range lo hi (swapcase c))
  end.

Definition in_class (ignoreCase : bool) (c : ascii) (k : list Item) : bool :=
  existsb (item_matches ignoreCase c) k.

(** Consume exactly [n] characters of the class. *)
Fixpoint match_piece (ignoreCase : bool) (k : list Item) (n : nat) (s : list ascii)
  : option (list ascii) :=
  match n with
  | O => Some s
  | S n' =>
      match s with
      | c :: s' => if in_class ignoreCase c k then match_piece ignoreCase k n' s' else None
      | [] => None
      end
  end.

(** A pattern [^p1 p2 ... pn$]: the pieces in order, then end of input. *)
Fixpoint match_seq (ignoreCase : bool) (re : list Piece) (s : list ascii) : bool :=
  match re with
  | [] => match s with [] => true | _ => false end
  | p :: re' =>
      match match_piece ignoreCase (cls p) (count p) s with
      | Some s' => match_seq ignoreCase re' s'
      | None => false
      end
  end.

Record RegExp := mkRegExp { pieces : list Piece; ignoreCase : bool }.

Definition test (re : RegExp) (s : string) : bool :=
  match_seq (ignoreCase re) (pieces re) (list_ascii_of_string s).

End Regex.

Definition hex : list Regex.Item := [Regex.Rng "0" "9"; Regex.Rng "a" "f"].
Definition hyphen : Regex.Piece := Regex.mkPiece [Regex.Lit "-"] 1.

(** [/^[0-9a-f]{8}-[0-9a-f]{4}-4[0-9a-f]{3}-[89ab][0-9a-f]{3}-[0-9a-f]{12}$/i] *)
Definition UUID_V4 : Regex.RegExp :=
Regex.mkRegExp
  [ Regex.mkPiece hex 8; hyphen;
    Regex.mkPiece hex 4; hyphen;
    Regex.mkPiece [Regex.Lit "4"] 1; Regex.mkPiece hex 3; hyphen;
    Regex.mkPiece [Regex.Lit "8"; Regex.Lit "9"; Regex.Lit "a"; Regex.Lit "b"] 1;
    Regex.mkPiece hex 3; hyphen;
    Regex.mkPiece hex 12 ]
  true.

(** ** [IdempotencyService]: the in-memory store *)

Module IdempotencyService.
Section WithBody.

(** [body: any]: the store never looks inside a body. *)
Context {Body : Type}.

Record CachedEntry := mkEntry { body : Body; createdAt : Z }.

Record t := mk { store : gmap string CachedEntry; ttlMs : Z }.

(** The constructor: [configService.get('idempotency.ttlSeconds') ?? 86400],
    times 1000. *)
Definition create (ttlSeconds : option Z) : t :=
  {| store := ∅; ttlMs := default 86400 ttlSeconds * 1000 |}.

(** [get(key)] at clock reading [now]; an expired entry is deleted. *)
Definition get (now : Z) (key : string) (s : t) : option CachedEntry * t :=
  match store s !! key with
  | None => (None, s)
  | Some entry =>
      if bool_decide (now - createdAt entry < ttlMs s)
      then (Some entry, s)
      else (None, {| store := delete key (store s); ttlMs := ttlMs s |})
  end.

(** [set(key, body)] at clock reading [now]: [Map.prototype.set]. *)
Definition set (now : Z) (key : string) (b : Body) (s : t) : t :=
  {| store := <[key := {| body := b; createdAt := now |}]> (store s);
     ttlMs := ttlMs s |}.

Definition clear (s : t) : t := {| store := ∅; ttlMs := ttlMs s |}.

End WithBody.
Arguments CachedEntry : clear implicits.
Arguments t : clear implicits.
End IdempotencyService.

(** ** [IdempotencyInterceptor] *)

Module IdempotencyInterceptor.
Import Http.
Section WithHandler.

(** [Payload]: the request body; [Body]: what the route handler
    returns (the response body); [App]: the state the handler works
    on. The idempotency store is private to the service injected into
    the interceptor, so the handler cannot reach it. *)
Context {Payload Body App : Type}.

Record Request := mkRequest {
  headers : gmap string string;        (* header names in lower case *)
  payload : Payload;
  idempotencyKey : option string       (* [(req as any).idempotencyKey] *)
}.

(** The part of the Express response the interceptor drives. *)
Record Response := mkResponse {
  resHeaders : gmap string string;
  sent : option (Z * Body)             (* [res.status(s).json(b)] *)
}.

Definition setHeader (name value : string) (r : Response) : Response :=
  {| resHeaders := <[name := value]> (resHeaders r); sent := sent r |}.

Definition status_json (s : Z) (b : Body) (r : Response) : Response :=
  {| resHeaders := resHeaders r; sent := Some (s, b) |}.

(** Calls that leave the interceptor, in the order they happen. *)
Inductive Event :=
| CacheGet (key : string)
| CacheSet (key : string)
| Handle.

Record World := mkWorld {
  service : IdempotencyService.t Body;
  res : Response;
  app : App;
  trace : list Event
}.

(** [next.handle()]: the handler emits one value or fails. *)
Inductive HandlerResult :=
| Returned (data : Body)
| Threw (e : Exception).

Definition CallHandler : Type := Request → App → HandlerResult * App.

(** What [intercept] gives back: it throws before returning, or
    returns [EMPTY], or the handler's stream, which emits the data
    ([Next]) or an error ([Errored]). *)
Inductive Observable :=
| Thrown (e : Exception)
| EMPTY
| Next (data : Body)
| Errored (e : Exception).

(** The handler's stream as the caller of [intercept] sees it: the
    value, or the error. *)
Definition outcome_of (r : HandlerResult) : Observable :=
  match r with
  | Returned data => Next data
  | Threw err => Errored err
  end.

(** [!key] for [key: string | undefined]. *)
Definition falsy (key : option string) : bool :=
  match key with
  | None => true
  | Some s => bool_decide (s = "")
  end.

Definition missing_key : ErrorBody :=
  {| status := 400; code := "MISSING_IDEMPOTENCY_KEY"; error := "Bad Request";
     message := "Idempotency-Key header is required." |}.

Definition invalid_key : ErrorBody :=
  {| status := 400; code := "INVALID_IDEMPOTENCY_KEY"; error := "Bad Request";
     message := "Idempotency-Key must be a valid UUID v4." |}.

(** [(req as any).idempotencyKey = key] *)
Definition set_idempotencyKey (key : string) (req : Request) : Request :=
  {| headers := headers req; payload := payload req; idempotencyKey := Some key |}.

(** [intercept(context, next)]. [now] is the clock when the store is
    read, [now'] the clock when the handler's value reaches [tap]. *)
Definition intercept (req : Request) (now now' : Z) (next : CallHandler) (w : World)
  : Observable * World :=
  let key := headers req !! "idempotency-key" in
  if falsy key then (Thrown (BadRequestException missing_key), w)
  else
    let key := default "" key in
    if negb (Regex.test UUID_V4 key) then (Thrown (BadRequestException invalid_key), w)
    else
      let '(cached, svc) := IdempotencyService.get now key (service w) in
      let tr := (trace w ++ [CacheGet key])%list in
      match cached with
      | Some c =>
          (EMPTY,
           {| service := svc;
              res := status_json 200 (IdempotencyService.body c)
                       (setHeader "X-Idempotency-Result" "cached" (res w));
              app := app w;
              trace := tr |})
      | None =>
          let '(r, app') := next (set_idempotencyKey key req) (app w) in
          match r with
          | Returned data =>
              (Next data,
               {| service := IdempotencyService.set now' key data svc;
                  res := setHeader "X-Idempotency-Result" "created" (res w);
                  app := app';
                  trace := (tr ++ [Handle; CacheSet key])%list |})
          | Threw e =>
              (Errored e,
               {| service := svc; res := res w; app := app'; trace := (tr ++ [Handle])%list |})
          end
      end.

(** Every key of the store has the shape of a version-4 identifier. *)
Definition keys_valid (s : IdempotencyService.t Body) : Prop :=
  ∀ k, is_Some (IdempotencyService.store s !! k) → Regex.test UUID_V4 k = true.

End WithHandler.
Arguments Request : clear implicits.
Arguments Response : clear implicits.
Arguments World : clear implicits.
Arguments HandlerResult : clear implicits.
Arguments Observable : clear implicits.
Arguments CallHandler : clear implicits.
End IdempotencyInterceptor.

(** ** Numbers: [Math.round] on binary64 *)

Module JsNumber.

#[local] Open Scope float_scope.

(** An integer of magnitude below 2^63 as a float (exact below 2^53). *)
Definition of_Z (n : Z) : float :=
  match n with
  | Z0 => 0
  | Zpos p => SF2Prim (S754_finite false p 0)
  | Zneg p => SF2Prim (S754_finite true p 0)
  end.

(** The integer closest to the fraction [v/d], the upper one on a tie:
    [floor(v/d + 1/2)]. *)
Definition round_half_up (v d : Z) : Z := ((2 * v + d) / (2 * d))%Z.

(** [Math.round(x)]: the integer closest to [x], ties towards +∞;
    NaN, the infinities and the zeros are returned as they are, and a
    negative [x] that rounds to zero gives -0. A finite [x] is
    [±m·2^e]; with [e ≥ 0] it is an integer already, otherwise it is
    the fraction [±m / 2^(-e)], rounded exactly on integers. *)
Definition Math_round (x : float) : float :=
  match Prim2SF x with
  | S754_finite s m e =>
      if (0 <=? e)%Z then x
      else
        let n := round_half_up (if s then Zneg m else Zpos m) (2 ^ (- e)) in
        if (n =? 0)%Z then (if s then -0 else 0) else of_Z n
  | _ => x
  end.

End JsNumber.

(** ** Property reads on an object literal *)

Module JsObject.

(** The names every object literal inherits from [Object.prototype]. *)
Definition Object_prototype : list string :=
  [ "constructor"; "__defineGetter__"; "__defineSetter__"; "hasOwnProperty";
    "__lookupGetter__"; "__lookupSetter__"; "isPrototypeOf";
    "propertyIsEnumerable"; "toString"; "valueOf"; "__proto__";
    "toLocaleString" ].

(** What [o[k]] evaluates to when [o] is a literal whose own properties
    are numbers: the number of an own property; otherwise what the
    prototype has under that name (a function, or for [__proto__] the
    prototype itself); otherwise [undefined]. *)
Inductive Value :=
| Num (x : float)
| Inherited (name : string)
| Undefined.

Definition get_property (own : gmap string float) (k : string) : Value :=
  match own !! k with
  | Some x => Num x
  | None => if bool_decide (k ∈ Object_prototype) then Inherited k else Undefined
  end.

(** [v ?? d] *)
Definition coalesce (v : Value) (d : float) : Value :=
  match v with
  | Undefined => Num d
  | _ => v
  end.

(** The number an operand of [*] stands for: a function or an object
    converts to NaN. *)
Definition ToNumber (v : Value) : float :=
  match v with
  | Num x => x
  | Inherited _ => nan
  | Undefined => nan
  end.

End JsObject.

(** ** [QuotesService] *)

Module QuotesService.
Import Http JsNumber JsObject.

#[local] Open Scope float_scope.

Inductive Status := APPROVED | PENDING.

Definition Status_to_string (s : Status) : string :=
  match s with APPROVED => "APPROVED" | PENDING => "PENDING" end.

(** A value of [Record<string, unknown>]. *)
Inductive JsonValue :=
| JNull
| JBool (b : bool)
| JNumber (x : float)
| JString (s : string)
| JArray (l : list JsonValue)
| JObject (fields : list (string * JsonValue)).

(** [CreateQuoteDto & { idempotencyKey?: string }]; [documentType] is a
    string at run time (the enum's members are their own names). *)
Record CreateQuoteDto := mkDto {
  dto_documentId : string;
  dto_documentType : string;
  dto_insuredName : string;
  dto_insuredEmail : string;
  dto_coverageAmount : float;
  dto_currency : string;
  dto_effectiveDate : string;
  dto_expiryDate : string;
  dto_metadata : option (gmap string JsonValue);
  dto_idempotencyKey : option string
}.

Record Quote := mkQuote {
  quoteId : string;
  documentId : string;
  documentType : string;
  insuredName : string;
  insuredEmail : string;
  coverageAmount : float;
  currency : string;
  effectiveDate : string;
  expiryDate : string;
  premium : float;
  status : Status;
  metadata : gmap string JsonValue;
  createdAt : string;
  updatedAt : string
}.

(** The own properties of the literal [RATES]; it is read through
    [JsObject.get_property]. *)
Definition RATES : gmap string float :=
  {[ "AUTO" := 0.025; "HOME" := 0.018; "LIFE" := 0.012;
     "HEALTH" := 0.020; "TRAVEL" := 0.008 ]}.

(** What the wrapped call and the fallback return. *)
Record AggregatorResult := mkResult { r_premium : float; r_status : Status }.

(** [callExternalAggregator(quoteData)] once its artificial delay
    ([Math.random() * 100 + 20] ms) has passed; [failDraw] is the
    second [Math.random()]. *)
Definition callExternalAggregator (quoteData : CreateQuoteDto) (failDraw : float)
  : Exception + AggregatorResult :=
  if failDraw <? 0.05 then inl (Error "External aggregator timeout")
  else
    let rate := coalesce (get_property RATES (dto_documentType quoteData)) 0.02 in
    let premium :=
      Math_round (dto_coverageAmount quoteData * ToNumber rate * 100) / 100 in
    inr {| r_premium := premium; r_status := APPROVED |}.

(** The function registered with [breaker.fallback]. After the log
    line it reads a property, applies [??], multiplies, rounds and
    divides; each of these yields a value on whatever it is given, so
    there is no throwing branch. *)
Definition fallback (quoteData : CreateQuoteDto) : Exception + AggregatorResult :=
  let rate := coalesce (get_property RATES (dto_documentType quoteData)) 0.02 in
  inr {| r_premium :=
           Math_round (dto_coverageAmount quoteData * ToNumber rate * 100) / 100;
         r_status := PENDING |}.

(** The options handed to the breaker in [onModuleInit]; each falls
    back to its default when the configuration has no value. *)
Record CbOpts := mkCbOpts {
  timeout : Z;
  errorThresholdPercentage : Z;
  resetTimeout : Z;
  volumeThreshold : Z
}.

Definition cbOpts (cfg : string → option Z) : CbOpts :=
  {| timeout := default 3000%Z (cfg "circuitBreaker.timeout");
     errorThresholdPercentage := default 50%Z (cfg "circuitBreaker.errorThresholdPercentage");
     resetTimeout := default 30000%Z (cfg "circuitBreaker.resetTimeout");
     volumeThreshold := default 5%Z (cfg "circuitBreaker.volumeThreshold") |}.

(** Modelled from the spec: what the breaker does with one [fire]. The
    breaker is an object of the opossum package, which [onModuleInit]
    only constructs and configures; its code is not part of the
    repository. By the call contract of the design document (4.2) a
    call either goes through to the wrapped operation, which then
    succeeds or fails and finishes within [timeout] or not, or, with
    the breaker open, is not made at all. Which of these happens is an
    input here. *)
Inductive Dispatch :=
| Invoked (failDraw : float) (inTime : bool)
| ShortCircuited.

(** Modelled from the spec: [breaker.fire(dto)] with the fallback
    registered (the package's method, see [Dispatch]). "Successful
    calls return the wrapped call's result directly"; a call that
    fails or exceeds the timeout "triggers fallback"; when open, the
    "wrapped call is never invoked; fallback is invoked immediately". *)
Definition fire (d : Dispatch) (dto : CreateQuoteDto) : Exception + AggregatorResult :=
  match d with
  | Invoked failDraw true =>
      match callExternalAggregator dto failDraw with
      | inr r => inr r
      | inl _ => fallback dto
      end
  | Invoked _ false => fallback dto
  | ShortCircuited => fallback dto
  end.

(** [quotesDb] and the [quotes_created_total] counter, labelled by
    (status, document_type). *)
Record State := mkState {
  quotesDb : gmap string Quote;
  quotesCreatedTotal : gmap (string * string) nat
}.

Definition inc (label : string * string) (c : gmap (string * string) nat)
  : gmap (string * string) nat :=
  <[label := S (default O (c !! label))]> c.

(** [s.replace(/-/g, '')] *)
Fixpoint remove_hyphens (s : string) : string :=
  match s with
  | EmptyString => EmptyString
  | String c s' => if bool_decide (c = "-"%char) then remove_hyphens s'
                   else String c (remove_hyphens s')
  end.

(** [`q-${uuidv4().replace(/-/g, '').substring(0, 16)}`] *)
Definition make_quoteId (uuid : string) : string :=
  "q-" +:+ substring 0 16 (remove_hyphens uuid).

(** [createQuote(dto)]. [d] is the breaker's dispatch, [uuid] the
    value of [uuidv4()], [t1] and [t2] the two readings of
    [new Date().toISOString()]. Publishing the QuoteIssued event is
    fire-and-forget with its errors swallowed; it touches neither the
    quote nor the store and is left out. *)
Definition createQuote (dto : CreateQuoteDto) (d : Dispatch) (uuid t1 t2 : string)
    (s : State) : (Exception + Quote) * State :=
  match fire d dto with
  | inl e => (inl e, s)
  | inr aggregatorResult =>
      let quote :=
        {| quoteId := make_quoteId uuid;
           documentId := dto_documentId dto;
           documentType := dto_documentType dto;
           insuredName := dto_insuredName dto;
           insuredEmail := dto_insuredEmail dto;
           coverageAmount := dto_coverageAmount dto;
           currency := dto_currency dto;
           effectiveDate := dto_effectiveDate dto;
           expiryDate := dto_expiryDate dto;
           premium := r_premium aggregatorResult;
           status := r_status aggregatorResult;
           metadata := default ∅ (dto_metadata dto);
           createdAt := t1;
           updatedAt := t2 |} in
      (inr quote,
       {| quotesDb := <[quoteId quote := quote]> (quotesDb s);
          quotesCreatedTotal :=
            inc (Status_to_string (status quote), documentType quote)
                (quotesCreatedTotal s) |})
  end.

Definition not_found (quoteId : string) : ErrorBody :=
  {| Http.status := 404%Z; code := "NOT_FOUND"; error := "Not Found";
     message := "Quote with id " +:+ String "034"%char quoteId
                 +:+ String "034"%char " not found" |}.

(** [getQuoteById(quoteId)] *)
Definition getQuoteById (quoteId : string) (s : State) : Exception + Quote :=
  match quotesDb s !! quoteId with
  | None => inl (NotFoundException (not_found quoteId))
  | Some quote => inr quote
  end.

(** One call of [createQuote] with everything it draws from outside,
    and a run of such calls on the store, in order. *)
Record Creation := mkCreation {
  c_dto : CreateQuoteDto;
  c_dispatch : Dispatch;
  c_uuid : string;
  c_t1 : string;
  c_t2 : string
}.

Definition createQuotes (cs : list Creation) (s : State) : State :=
  foldl (λ s c, (createQuote (c_dto c) (c_dispatch c) (c_uuid c) (c_t1 c) (c_t2 c) s).2) s cs.

End QuotesService.

(** ** Words of the design document, as definitions *)

Module Spec.
Import QuotesService.

#[local] Open Scope float_scope.

(** The value of a finite number, exact, as a fraction with a positive
    denominator. *)
Definition exact (x : float) : option (Z * Z) :=
  match Prim2SF x with
  | S754_zero _ => Some (0, 1)%Z
  | S754_finite s m e =>
      let v := if s then Zneg m else Zpos m in
      if (0 <=? e)%Z then Some (v * 2 ^ e, 1)%Z else Some (v, 2 ^ (- e))%Z
  | _ => None
  end.




(** The rate table as the document lists it: AUTO=0.025, HOME=0.018,
    LIFE=0.012, HEALTH=0.020, TRAVEL=0.008, default 0.02. *)
Definition rate (documentType : string) : float :=
  if bool_decide (documentType = "AUTO") then 0.025
  else if bool_decide (documentType = "HOME") then 0.018
  else if bool_decide (documentType = "LIFE") then 0.012
  else if bool_decide (documentType = "HEALTH") then 0.020
  else if bool_decide (documentType = "TRAVEL") then 0.008
  else 0.02.

(** "Age" of a record at a clock reading, and the default lifetime. *)
Definition age {Body} (now : Z) (e : IdempotencyService.CachedEntry Body) : Z :=
  (now - IdempotencyService.createdAt e)%Z.

Definition default_ttl_seconds : Z := 86400%Z.

End Spec.

(** ** Sample data used to exercise the statements *)

Module Sample.
Import IdempotencyService IdempotencyInterceptor QuotesService.

Definition key1 : string := "b3ac17ab-1f3f-4558-ab8a-092c4ceb38e4".
Definition key2 : string := "0f8fad5b-d9cb-469f-a165-70867728950e".

Definition entry1 : CachedEntry nat :=
  {| body := 7%nat; IdempotencyService.createdAt := 1000 |}.

Definition service1 : IdempotencyService.t nat :=
  {| store := {[ key1 := entry1 ]}; ttlMs := 86400000 |}.

Definition request (key : option string) (p : string) : Request string :=
  {| headers := match key with
                | Some k => {[ "idempotency-key" := k ]}
                | None => ∅
                end;
     payload := p;
     idempotencyKey := None |}.

Definition res0 : Response nat := {| resHeaders := ∅; sent := None |}.

Definition world1 : World nat nat :=
  {| service := service1; res := res0; app := O; trace := [] |}.

Definition world0 : World nat nat :=
  {| service := IdempotencyService.create None; res := res0; app := O; trace := [] |}.

(** A handler that counts its calls and returns the length of the
    payload; one that always fails. *)
Definition count_handler : CallHandler string nat nat :=
  λ req n, (Returned (String.length (payload req)), S n).

Definition failing_handler : CallHandler string nat nat :=
  λ req n, (Threw (Http.Error "boom"), S n).

Definition dto_auto : CreateQuoteDto :=
  {| dto_documentId := "DOC123"; dto_documentType := "AUTO";
     dto_insuredName := "Jane Doe"; dto_insuredEmail := "jane@example.com";
     dto_coverageAmount := 50000%float; dto_currency := "USD";
     dto_effectiveDate := "2099-01-01"; dto_expiryDate := "2100-01-01";
     dto_metadata := None; dto_idempotencyKey := None |}.

(** The same payload for another document type and amount. *)
Definition dto_with (documentType : string) (coverageAmount : float) : CreateQuoteDto :=
  {| dto_documentId := "DOC123"; dto_documentType := documentType;
     dto_insuredName := "Jane Doe"; dto_insuredEmail := "jane@example.com";
     dto_coverageAmount := coverageAmount; dto_currency := "USD";
     dto_effectiveDate := "2099-01-01"; dto_expiryDate := "2100-01-01";
     dto_metadata := None; dto_idempotencyKey := None |}.

Definition state0 : State := {| quotesDb := ∅; quotesCreatedTotal := ∅ |}.

End Sample.

(** ** Requests served one after the other *)

Module Run.
Import IdempotencyInterceptor.
Section WithHandler.
Context {Payload Body App : Type}.

(** One request as it reaches the interceptor: the request, the clock
    at the lookup, the clock when the handler's value arrives, and the
    handler to run. *)
Record Arrival := mkArrival {
  a_req : Request Payload;
  a_now : Z;
  a_done : Z;
  a_next : CallHandler Payload Body App
}.

(** The world after the arrivals have been served in order, each one
    finding the store and the application state the previous one left. *)
Definition serve (arrivals : list Arrival) (w : World Body App) : World Body App :=
  foldl (λ w a, (intercept (a_req a) (a_now a) (a_done a) (a_next a) w).2) w arrivals.

End WithHandler.
Arguments Arrival : clear implicits.
End Run.

(** ** The shape of an accepted key, and what a run of creations counts *)

Module KeyShape.

Definition hex_digits : list ascii := list_ascii_of_string "0123456789abcdefABCDEF".
Definition variant_digits : list ascii := list_ascii_of_string "89abAB".

(** Five groups joined by hyphens, the third one led by [4], the
    fourth by the character [v]. *)
Definition assemble (g1 g2 g3 : list ascii) (v : ascii) (g4 g5 : list ascii) : list ascii :=
  g1 ++ "-"%char :: g2 ++ "-"%char :: "4"%char :: g3 ++ "-"%char :: v :: g4 ++ "-"%char :: g5.

End KeyShape.

Module Tally.
Import QuotesService.

(** The labels [createQuote] increments for a creation: the status the
    breaker left it with and the document type. *)
Definition label (c : Creation) : string * string :=
  match fire (c_dispatch c) (c_dto c) with
  | inr r => (Status_to_string (r_status r), dto_documentType (c_dto c))
  | inl _ => ("", "")
  end.

(** The store after one creation of a run. *)
Definition step (c : Creation) (s : State) : State :=
  (createQuote (c_dto c) (c_dispatch c) (c_uuid c) (c_t1 c) (c_t2 c) s).2.

(** The ids handed out in a run. *)
Definition ids (cs : list Creation) : list string :=
  (λ c, make_quoteId (c_uuid c)) <$> cs.

(** Every quote sits under its own id. *)
Definition keyed_by_id (s : State) : Prop :=
  ∀ id q, quotesDb s !! id = Some q → quoteId q = id.

End Tally.

(** ** [HttpExceptionFilter] *)

Module HttpExceptionFilter.
Import Http QuotesService.

(** What [exception.getResponse()] gives: a string, or an object, read
    here as the map of its own properties. *)
Inductive ExceptionResponse :=
| RString (s : string)
| RObject (fields : gmap string JsonValue).

(** What reaches [catch]: an [HttpException] with its status, response
    and [message] property, or any other throwable with its message. *)
Inductive Caught :=
| IsHttp (status : Z) (response : ExceptionResponse) (message : string)
| NotHttp (message : string).

(** The object literal the service's exceptions are built from. *)
Definition json_of (b : ErrorBody) : gmap string JsonValue :=
  {[ "status" := JNumber (JsNumber.of_Z (Http.status b));
     "code" := JString (code b);
     "error" := JString (error b);
     "message" := JString (message b) ]}.

(** An exception of this service as the filter catches it. *)
Definition caught (e : Exception) : Caught :=
  match e with
  | HttpException st b => IsHttp st (RObject (json_of b)) (message b)
  | Error msg => NotHttp msg
  end.

(** [codeFromStatus(status)] *)
Definition codeFromStatus (status : Z) : string :=
  let map : gmap Z string :=
    {[ 400 := "BAD_REQUEST"; 401 := "UNAUTHORIZED"; 403 := "FORBIDDEN";
       404 := "NOT_FOUND"; 409 := "CONFLICT"; 422 := "UNPROCESSABLE_ENTITY";
       429 := "TOO_MANY_REQUESTS"; 500 := "INTERNAL_SERVER_ERROR";
       503 := "SERVICE_UNAVAILABLE" ]}%Z in
  default "UNKNOWN_ERROR" (map !! status).

(** [x ?? y] on a property that may be absent or null. *)
Definition nullish_or (x : option JsonValue) (y : option JsonValue) : option JsonValue :=
  match x with
  | None | Some JNull => y
  | Some v => Some v
  end.

(** [{ k: v }] added to an object when [v] is not [undefined]
    ([res.json] leaves undefined properties out). *)
Definition with_field (k : string) (v : option JsonValue) (o : gmap string JsonValue)
  : gmap string JsonValue :=
  match v with
  | Some v => <[k := v]> o
  | None => o
  end.

Section WithHttpStatus.

(** [HttpStatus[status]]: the framework's name of a status code, if it
    has one. The enumeration is the framework's, not this repository's. *)
Variable HttpStatus : Z → option string.

(** [catch(exception, host)] with [response.headersSent],
    [request.requestId] and the current time read as arguments; the
    result is what is written with [response.status(s).json(b)], if
    anything is. *)
Definition catch (exception : Caught) (headersSent : bool)
    (reqRequestId : option string) (timestamp : string)
  : option (Z * gmap string JsonValue) :=
  let requestId := default "" reqRequestId in
  if headersSent then None
  else
    match exception with
    | IsHttp status exceptionResponse exmessage =>
        let structured :=
          match exceptionResponse with
          | RObject fields => bool_decide (is_Some (fields !! "code"))
          | RString _ => false
          end in
        let raw (k : string) : option JsonValue :=
          match exceptionResponse with
          | RObject fields => fields !! k
          | RString _ => None
          end in
        if structured then
          let fields := match exceptionResponse with
                        | RObject fields => fields
                        | RString _ => ∅
                        end in
          Some (status,
                <["timestamp" := JString timestamp]>
                  (<["requestId" := JString requestId]> fields))
        else
          let message :=
            match raw "message" with
            | Some (JArray l) => head l
            | m => nullish_or m (Some (JString exmessage))
            end in
          let errors :=
            match raw "message" with
            | Some (JArray l) =>
                Some (JArray ((λ m, JObject [("message", m)]) <$> l))
            | _ => None
            end in
          Some (status,
                with_field "status" (Some (JNumber (JsNumber.of_Z status)))
                  (with_field "code" (Some (JString (codeFromStatus status)))
                     (with_field "error"
                        (nullish_or (raw "error") (JString <$> HttpStatus status))
                        (with_field "message" message
                           (with_field "errors" errors
                              (with_field "requestId" (Some (JString requestId))
                                 (with_field "timestamp" (Some (JString timestamp)) ∅)))))))
    | NotHttp _ =>
        Some (500,
              {[ "status" := JNumber (JsNumber.of_Z 500);
                 "code" := JString "INTERNAL_SERVER_ERROR";
                 "error" := JString "Internal Server Error";
                 "message" := JString "An unexpected error occurred";
                 "requestId" := JString requestId;
                 "timestamp" := JString timestamp ]})
    end.

End WithHttpStatus.
End HttpExceptionFilter.

(** ** [RequestIdInterceptor] *)

Module RequestIdInterceptor.
Section WithHandler.
Context {Data App : Type}.

Record Request := mkRequest {
  headers : gmap string string;
  requestId : option string              (* [(req as any).requestId] *)
}.

Definition CallHandler : Type := Request → App → (Http.Exception + Data) * App.

(** What [intercept] leaves behind: the handler's stream as it is
    ([tap] with an empty callback), the request with its id, the
    response headers, and the state the handler left. *)
Record Result := mkResult {
  stream : Http.Exception + Data;
  request : Request;
  resHeaders : gmap string string;
  app : App
}.

(** [intercept(context, next)]; [uuid] is what [uuidv4()] returns when
    it is called. *)
Definition intercept (req : Request) (uuid : string) (next : CallHandler)
    (res : gmap string string) (a : App) : Result :=
  let requestId :=
    match headers req !! "x-request-id" with
    | Some h => if bool_decide (h = "") then uuid else h
    | None => uuid
    end in
  let req' := {| headers := headers req; requestId := Some requestId |} in
  let '(r, a') := next req' a in
  {| stream := r; request := req';
     resHeaders := <["X-Request-ID" := requestId]> res; app := a' |}.

End WithHandler.
Arguments CallHandler : clear implicits.
Arguments Result : clear implicits.
End RequestIdInterceptor.

(** ** [AuthGuard] *)

Module AuthGuard.
Import Http.

(** [s.split(sep)] for a separator of one character. *)
Fixpoint split_on (sep : ascii) (s : list ascii) : list (list ascii) :=
  match s with
  | [] => [[]]
  | c :: s' =>
      if bool_decide (c = sep) then [] :: split_on sep s'
      else match split_on sep s' with
           | seg :: segs => (c :: seg) :: segs
           | [] => [[c]]
           end
  end.

Definition split (sep : ascii) (s : string) : list string :=
  string_of_list_ascii <$> split_on sep (list_ascii_of_string s).

(** A class taken once, or one or more times ([+]). *)
Inductive Quant := Once | OneOrMore.

Record QPiece := mkQPiece { qcls : list Regex.Item; quant : Quant }.

(** [cls+] followed by the rest of the pattern [k]: after each
    character of the class, either more of them or the rest. *)
Fixpoint plus_loop (k : list ascii → bool) (cls : list Regex.Item) (s : list ascii) : bool :=
  match s with
  | [] => false
  | c :: s' => Regex.in_class false c cls && (plus_loop k cls s' || k s')
  end.

(** A pattern [^p1 ... pn$] without flags. *)
Fixpoint match_q (re : list QPiece) (s : list ascii) : bool :=
  match re with
  | [] => match s with [] => true | _ => false end
  | p :: re' =>
      match quant p with
      | Once =>
          match s with
          | c :: s' => Regex.in_class false c (qcls p) && match_q re' s'
          | [] => false
          end
      | OneOrMore => plus_loop (match_q re') (qcls p) s
      end
  end.

Definition base64url : list Regex.Item :=
  [Regex.Rng "A" "Z"; Regex.Rng "a" "z"; Regex.Rng "0" "9"; Regex.Lit "-"; Regex.Lit "_"].

Definition dot : QPiece := mkQPiece [Regex.Lit "."] Once.

(** [/^[A-Za-z0-9\-_]+\.[A-Za-z0-9\-_]+\.[A-Za-z0-9\-_]+$/] *)
Definition jwtPattern : list QPiece :=
  [ mkQPiece base64url OneOrMore; dot;
    mkQPiece base64url OneOrMore; dot;
    mkQPiece base64url OneOrMore ].

Definition test (re : list QPiece) (s : string) : bool :=
  match_q re (list_ascii_of_string s).

(** A non-empty run of characters of the base64url alphabet, as one of
    the three parts of a token is. *)
Definition segment (s : string) : Prop :=
  s ≠ "" ∧ Forall (λ c, Regex.in_class false c base64url = true) (list_ascii_of_string s).

Definition unauthorized (c m : string) : Exception :=
  HttpException 401 {| status := 401; code := c; error := "Unauthorized"; message := m |}.

Section WithDecode.

(** [Claims]: a decoded payload. [decode seg] is the payload that
    [JSON.parse(Buffer.from(seg, 'base64url').toString('utf8'))] yields
    when it yields one whose [sub] is truthy, and nothing when the
    parse throws or [sub] is missing. Decoding is the runtime's. *)
Context {Claims : Type}.
Variable decode : string → option Claims.

(** [request.user] once the guard has let the request through: the
    literal [{ sub: 'dev-user', scope: 'quotes:write quotes:read' }] of
    the bypass, or the decoded payload. The constructor records which
    of the two assignments ran; as objects the two can coincide, a
    payload may carry the same two fields. *)
Inductive User :=
| DevUser
| JwtUser (claims : Claims).

(** [canActivate(context)]: the Authorization header, and the
    configuration values [server.env] and [auth.devApiToken]. Returning
    [true] is [inr] with the user set on the request. *)
Definition canActivate (authorization env devToken : option string) : Exception + User :=
  let authHeader := default "" authorization in
  if bool_decide (authHeader = "") || negb (String.prefix "Bearer " authHeader) then
    inl (unauthorized "MISSING_TOKEN"
           ("Missing or invalid Bearer token. Include "
            +:+ String "034"%char "Authorization: Bearer <token>"
            +:+ String "034"%char " header."))
  else
    let token := split " " authHeader !! 1%nat in
    if bool_decide (env ≠ Some "production")
       && bool_decide (default "" devToken ≠ "")
       && bool_decide (token = devToken)
    then inr DevUser
    else
      let token := default "undefined" token in
      if negb (test jwtPattern token) then
        inl (unauthorized "INVALID_TOKEN" "Invalid token format.")
      else
        match decode (default "undefined" (split "." token !! 1%nat)) with
        | Some payload => inr (JwtUser payload)
        | None => inl (unauthorized "INVALID_TOKEN" "Token validation failed.")
        end.

End WithDecode.
Arguments User : clear implicits.
End AuthGuard.

(** ** [QuotesController] behind the idempotency interceptor *)

Module QuotesController.
Import Http QuotesService IdempotencyInterceptor.

(** What one request draws from outside while it is handled: the
    breaker's dispatch, [uuidv4()], and the two clock readings. *)
Record Draws := mkDraws {
  dispatch : Dispatch;
  uuid : string;
  t1 : string;
  t2 : string
}.

(** What the handler works on: the state of [QuotesService], and the
    Location header the controller sets on the response. *)
Record App := mkApp {
  state : State;
  location : option string
}.

Section WithValidation.

(** The global [ValidationPipe] applied to the body: the validated
    (whitelisted, transformed) DTO, or the 400 it throws. Its rules are
    the decorators of the DTO, checked by the class-validator package. *)
Context {Payload : Type}.
Variable validate : Payload → Exception + CreateQuoteDto.

(** [{ ...dto, idempotencyKey }] *)
Definition with_key (dto : CreateQuoteDto) (key : option string) : CreateQuoteDto :=
  {| dto_documentId := dto_documentId dto; dto_documentType := dto_documentType dto;
     dto_insuredName := dto_insuredName dto; dto_insuredEmail := dto_insuredEmail dto;
     dto_coverageAmount := dto_coverageAmount dto; dto_currency := dto_currency dto;
     dto_effectiveDate := dto_effectiveDate dto; dto_expiryDate := dto_expiryDate dto;
     dto_metadata := dto_metadata dto; dto_idempotencyKey := key |}.

(** [create(dto, req, res)] as the route handler the interceptor calls:
    the pipe first, then the method. *)
Definition create (d : Draws) : CallHandler Payload Quote App :=
  λ req a,
    match validate (payload req) with
    | inl e => (Threw e, a)
    | inr dto =>
        match createQuote (with_key dto (idempotencyKey req))
                (dispatch d) (uuid d) (t1 d) (t2 d) (state a) with
        | (inl e, s') => (Threw e, {| state := s'; location := location a |})
        | (inr quote, s') =>
            (Returned quote,
             {| state := s';
                location := Some ("/api/v1/quotes/" +:+ quoteId quote) |})
        end
    end.

(** [getById(quoteId)] *)
Definition getById (quoteId : string) (s : State) : Exception + Quote :=
  getQuoteById quoteId s.

(** One POST from the interceptor on, on a response nothing has been
    written to yet. *)
Definition post (d : Draws) (req : Request Payload) (now now' : Z)
    (svc : IdempotencyService.t Quote) (s : State)
  : Observable Quote * World Quote App :=
  intercept req now now' (create d)
    {| service := svc;
       res := {| resHeaders := ∅; sent := None |};
       app := {| state := s; location := None |};
       trace := [] |}.

End WithValidation.
End QuotesController.

(** ** [PublisherService] *)

Module PublisherService.
Import QuotesService.

(** The two ways a [ServiceBusClient] is built, and a sender made from
    a client for a topic. *)
Inductive Client :=
| ViaConnectionString (connectionString : string)
| ViaManagedIdentity (host : string).

Record Sender := mkSender { senderClient : Client; topic : string }.

Record t := mk { client : option Client; sender : option Sender }.

(** [serviceBus.connectionString], [.namespace] and [.topicName] of the
    configuration. *)
Record Config := mkConfig {
  connectionString : option string;
  namespace : option string;
  topicName : option string
}.

Definition truthy (v : option string) : bool :=
  match v with
  | Some s => negb (bool_decide (s = ""))
  | None => false
  end.

(** What the SDK does when asked: whether [new ServiceBusClient],
    [createSender] and [sendMessages] succeed or throw. *)
Record Sdk := mkSdk { constructs : bool; createsSender : bool; sends : bool }.

(** [getSender()]: the sender if there is one, else one built from the
    configuration, else [null]; [inl] when the SDK throws while the
    client or the sender is built. *)
Definition getSender (cfg : Config) (sdk : Sdk) (p : t) : (string + option Sender) * t :=
  match sender p with
  | Some s => (inr (Some s), p)
  | None =>
      let topicName := default "quotes.issued" (topicName cfg) in
      let build (c : Client) : (string + option Sender) * t :=
        if constructs sdk then
          if createsSender sdk then
            let s := {| senderClient := c; topic := topicName |} in
            (inr (Some s), {| client := Some c; sender := Some s |})
          else (inl "createSender threw", {| client := Some c; sender := None |})
        else (inl "client constructor threw", p) in
      if truthy (connectionString cfg) then
        build (ViaConnectionString (default "" (connectionString cfg)))
      else if truthy (namespace cfg) then
        build (ViaManagedIdentity (default "" (namespace cfg) +:+ ".servicebus.windows.net"))
      else (inr None, p)
  end.

(** [event.data]: the twelve fields copied from the quote. *)
Record EventData := mkEventData {
  d_quoteId : string;
  d_documentId : string;
  d_documentType : string;
  d_insuredName : string;
  d_insuredEmail : string;
  d_coverageAmount : float;
  d_currency : string;
  d_premium : float;
  d_status : Status;
  d_effectiveDate : string;
  d_expiryDate : string;
  d_createdAt : string
}.

(** The QuoteIssued event. *)
Record Event := mkEvent {
  eventId : string;
  eventType : string;
  eventVersion : string;
  source : string;
  time : string;
  ev_idempotencyKey : option string;       (* [null] when absent *)
  data : EventData
}.

Record Message := mkMessage {
  body : Event;
  contentType : string;
  messageId : string;
  applicationProperties : gmap string string
}.

(** What the method writes to its logger at the end. *)
Inductive Logged :=
| LogPublished (quoteId : string)
| LogFailed.

(** What a call leaves: whether the promise is fulfilled ([inr]) or
    rejected, the message handed to [sendMessages] if one was, the log
    line of the send, and the service afterwards. *)
Record Outcome := mkOutcome {
  settled : string + unit;
  handed : option Message;
  logged : option Logged;
  after : t
}.

(** [publishQuoteIssued(quote, idempotencyKey)]; [uuid] and [now] are
    [uuidv4()] and [new Date().toISOString()]. *)
Definition publishQuoteIssued (cfg : Config) (sdk : Sdk) (uuid now : string)
    (quote : Quote) (idempotencyKey : option string) (p : t) : Outcome :=
  match getSender cfg sdk p with
  | (inl err, p') =>
      {| settled := inl err; handed := None; logged := None; after := p' |}
  | (inr None, p') =>
      {| settled := inr (); handed := None; logged := None; after := p' |}
  | (inr (Some _), p') =>
      let event :=
        {| eventId := uuid;
           eventType := "com.example.quotes.QuoteIssued";
           eventVersion := "1.0";
           source := "quotes-aggregator";
           time := now;
           ev_idempotencyKey := idempotencyKey;
           data :=
             {| d_quoteId := quoteId quote;
                d_documentId := documentId quote;
                d_documentType := documentType quote;
                d_insuredName := insuredName quote;
                d_insuredEmail := insuredEmail quote;
                d_coverageAmount := coverageAmount quote;
                d_currency := currency quote;
                d_premium := premium quote;
                d_status := status quote;
                d_effectiveDate := effectiveDate quote;
                d_expiryDate := expiryDate quote;
                d_createdAt := createdAt quote |} |} in
      let message :=
        {| body := event;
           contentType := "application/json";
           messageId := eventId event;
           applicationProperties :=
             {[ "eventType" := eventType event;
                "status" := Status_to_string (d_status (data event)) ]} |} in
      {| settled := inr ();
         handed := Some message;
         logged := Some (if sends sdk then LogPublished (quoteId quote) else LogFailed);
         after := p' |}
  end.

(** A run of calls, each with the configuration and the SDK behaviour
    of its moment. *)
Record Call := mkCall {
  c_cfg : Config;
  c_sdk : Sdk;
  c_uuid : string;
  c_now : string;
  c_quote : Quote;
  c_key : option string
}.

Definition publish (c : Call) (p : t) : Outcome :=
  publishQuoteIssued (c_cfg c) (c_sdk c) (c_uuid c) (c_now c) (c_quote c) (c_key c) p.

Definition publishAll (cs : list Call) (p : t) : t :=
  foldl (λ p c, after (publish c p)) p cs.

End PublisherService.

(** ** More sample data *)

Module Sample2.
Import IdempotencyInterceptor QuotesService.

Definition arrival (key : string) (p : string) (now : Z)
  : Run.Arrival string nat nat :=
  Run.mkArrival (Sample.request (Some key) p) now (now + 1) Sample.count_handler.

(** A pipe that lets a present DTO through and refuses an absent one
    the way [configureApp] makes it refuse. *)
Definition validation_error : Http.ErrorBody :=
  {| Http.status := 400; Http.code := "VALIDATION_ERROR";
     Http.error := "Validation Error";
     Http.message := "Request body validation failed" |}.

Definition validate (p : option CreateQuoteDto) : Http.Exception + CreateQuoteDto :=
  match p with
  | Some dto => inr dto
  | None => inl (Http.BadRequestException validation_error)
  end.

Definition post_request (key : string) (p : option CreateQuoteDto)
  : Request (option CreateQuoteDto) :=
  {| headers := {[ "idempotency-key" := key ]}; payload := p; idempotencyKey := None |}.

Definition draws : QuotesController.Draws :=
  QuotesController.mkDraws (Invoked 0.5 true) Sample.key2
    "2026-01-01T00:00:00.000Z" "2026-01-01T00:00:00.001Z".

Definition quote1 : Quote :=
  {| quoteId := "q-0f8fad5bd9cb469f"; documentId := "DOC123"; documentType := "AUTO";
     insuredName := "Jane Doe"; insuredEmail := "jane@example.com";
     coverageAmount := 50000%float; currency := "USD";
     effectiveDate := "2099-01-01"; expiryDate := "2100-01-01";
     premium := 1250%float; status := APPROVED; metadata := ∅;
     createdAt := "2026-01-01T00:00:00.000Z";
     updatedAt := "2026-01-01T00:00:00.001Z" |}.

Definition quote_service : IdempotencyService.t Quote :=
  {| IdempotencyService.store :=
       {[ Sample.key1 := {| IdempotencyService.body := quote1;
                            IdempotencyService.createdAt := 1000 |} ]};
     IdempotencyService.ttlMs := 86400000 |}.

Definition state1 : State :=
  {| quotesDb := {[ "q-0f8fad5bd9cb469f" := quote1 ]}; quotesCreatedTotal := ∅ |}.

(** The middle part of a token decodes here when it is the base64url
    of a payload with subject u1. *)
Definition decode (seg : string) : option string :=
  if bool_decide (seg = "eyJzdWIiOiJ1MSJ9") then Some "u1" else None.

Definition http_status (st : Z) : option string :=
  if bool_decide (st = 404) then Some "NOT_FOUND" else None.

Definition connected : PublisherService.t :=
  let c := PublisherService.ViaConnectionString "Endpoint=sb://example/" in
  {| PublisherService.client := Some c;
     PublisherService.sender := Some (PublisherService.mkSender c "quotes.issued") |}.

Definition call (uuid : string) (sends : bool) : PublisherService.Call :=
  PublisherService.mkCall
    (PublisherService.mkConfig None None None)
    (PublisherService.mkSdk false false sends)
    uuid "2026-01-01T00:00:00.002Z" quote1 None.

End Sample2.

(** * Properties *)

#[local] Open Scope list_scope.
#[local] Open Scope Z_scope.

(** ** Rounding *)



Example Math_round_tie_up : JsNumber.Math_round 2.5%float = 3%float.
Proof. vm_compute. reflexivity. Qed.

Example Math_round_negative_tie : JsNumber.Math_round (-2.5)%float = (-2)%float.
Proof. vm_compute. reflexivity. Qed.

Example Math_round_below_half : JsNumber.Math_round 100.49999999999999%float = 100%float.
Proof. vm_compute. reflexivity. Qed.

Example Math_round_nan : JsNumber.Math_round nan = nan.
Proof. vm_compute. reflexivity. Qed.

(** ** The key pattern *)

Lemma match_piece_length ic k n (s s' : list ascii) :
  Regex.match_piece ic k n s = Some s' → length s = (n + length s')%nat.
Proof.
  revert s. induction n as [|n IH]; intros s; simpl.
  - by intros [= ->].
  - destruct s as [|c s]; [done|]. destruct (Regex.in_class ic c k); [|done].
    intros H. apply IH in H. simpl. lia.
Qed.

Lemma match_seq_length ic re (s : list ascii) :
  Regex.match_seq ic re s = true → length s = sum_list (Regex.count <$> re).
Proof.
  revert s. induction re as [|p re IH]; intros s; simpl.
  - by destruct s.
  - destruct (Regex.match_piece ic (Regex.cls p) (Regex.count p) s) as [s'|] eqn:Hp; [|done].
    intros H. apply IH in H. apply match_piece_length in Hp.
    change (length s = (Regex.count p + sum_list (Regex.count <$> re))%nat). lia.
Qed.

Lemma length_list_ascii_of_string (s : string) :
  length (list_ascii_of_string s) = String.length s.
Proof. induction s as [|c s IH]; simpl; congruence. Qed.

(** A key the pattern accepts has the fixed length of 36 characters. *)
Lemma test_UUID_V4_length (k : string) :
  Regex.test UUID_V4 k = true → String.length k = 36%nat.
Proof.
  intros H. apply match_seq_length in H.
  by rewrite length_list_ascii_of_string in H.
Qed.

Lemma test_empty_key : Regex.test UUID_V4 "" = false.
Proof. reflexivity. Qed.

Lemma test_valid_nonempty (k : string) : Regex.test UUID_V4 k = true → k ≠ "".
Proof. intros H ->. discriminate H. Qed.

Example test_key1 : Regex.test UUID_V4 Sample.key1 = true.
Proof. reflexivity. Qed.

Example test_upper : Regex.test UUID_V4 "B3AC17AB-1F3F-4558-AB8A-092C4CEB38E4" = true.
Proof. reflexivity. Qed.

Example test_not_a_uuid : Regex.test UUID_V4 "not-a-uuid" = false.
Proof. reflexivity. Qed.

(** Version nibble 1 instead of 4; variant nibble c instead of 8..b;
  a trailing line feed. *)
Example test_wrong_version : Regex.test UUID_V4 "b3ac17ab-1f3f-1558-ab8a-092c4ceb38e4" = false.
Proof. reflexivity. Qed.

Example test_wrong_variant : Regex.test UUID_V4 "b3ac17ab-1f3f-4558-cb8a-092c4ceb38e4" = false.
Proof. reflexivity. Qed.

Example test_trailing_newline :
Regex.test UUID_V4 ("b3ac17ab-1f3f-4558-ab8a-092c4ceb38e4" +:+ String "010"%char "") = false.
Proof. reflexivity. Qed.

(** ** The store *)

Section StoreFacts.
Import IdempotencyService.
Context {Body : Type}.
Implicit Types (s : IdempotencyService.t Body) (e : CachedEntry Body).
Implicit Types (now : Z) (key k : string).

Lemma get_absent now key s :
  store s !! key = None → get now key s = (None, s).
Proof. intros H. unfold get. by rewrite H. Qed.

Lemma get_live now key s e :
  store s !! key = Some e → now - createdAt e < ttlMs s →
  get now key s = (Some e, s).
Proof.
  intros H Hlive. unfold get. rewrite H.
  by rewrite bool_decide_eq_true_2.
Qed.

Lemma get_expired now key s e :
  store s !! key = Some e → (ttlMs s ≤ now - createdAt e)%Z →
  get now key s = (None, {| store := delete key (store s); ttlMs := ttlMs s |}).
Proof.
  intros H Hold. unfold get. rewrite H.
  rewrite bool_decide_eq_false_2; [done | lia].
Qed.

(** A lookup never changes the lifetime, and a miss leaves nothing
    under the key. *)
Lemma get_ttl now key s : ttlMs (get now key s).2 = ttlMs s.
Proof.
  unfold get. destruct (store s !! key) as [e|]; [|done].
  by case_bool_decide.
Qed.

Lemma get_miss_gone now key s s' :
  get now key s = (None, s') → store s' !! key = None.
Proof.
  unfold get. destruct (store s !! key) as [e|] eqn:H.
  - case_bool_decide; [done|]. intros [= <-]. simpl. apply lookup_delete_eq.
  - by intros [= <-].
Qed.

Lemma get_other now key k s : k ≠ key → store (get now key s).2 !! k = store s !! k.
Proof.
  intros Hne. unfold get. destruct (store s !! key) as [e|]; [|done].
  case_bool_decide; [done|]. simpl. by rewrite lookup_delete_ne.
Qed.

Lemma get_hit_inv now key s c s' :
  get now key s = (Some c, s') →
  s' = s ∧ store s !! key = Some c ∧ now - createdAt c < ttlMs s.
Proof.
  unfold get. destruct (store s !! key) as [e|] eqn:H; [|done].
  case_bool_decide; [|done]. by intros [= <- <-].
Qed.

Lemma set_lookup now key b s :
  store (set now key b s) !! key = Some {| body := b; createdAt := now |}.
Proof. apply lookup_insert_eq. Qed.

Lemma set_other now key k b s :
  k ≠ key → store (set now key b s) !! k = store s !! k.
Proof. intros Hne. simpl. by rewrite lookup_insert_ne. Qed.

(** At the very instant the age equals the lifetime the record is
    gone already: the test is [age < ttl]. *)
Lemma get_at_ttl now key s e :
  store s !! key = Some e → now - createdAt e = ttlMs s → (get now key s).1 = None.
Proof. intros H Heq. rewrite (get_expired now key s e); [done..|lia]. Qed.

End StoreFacts.

(** ** The interceptor *)

Section InterceptFacts.
Import Http IdempotencyService IdempotencyInterceptor.
Context {Payload Body App : Type}.
Implicit Types (req : Request Payload) (w : World Body App).
Implicit Types (next : CallHandler Payload Body App).
Implicit Types (now : Z) (key k : string) (e : CachedEntry Body).

(** Steps [intercept] through the two checks on a well-formed key. *)
Ltac pass_validation Hh Ht :=
  unfold intercept; rewrite Hh; simpl;
  rewrite bool_decide_eq_false_2 by (by apply test_valid_nonempty);
  rewrite Ht; simpl.

(** The three ways through [intercept] once the key is well formed. *)
Lemma intercept_hit req now now' next w key e :
  headers req !! "idempotency-key" = Some key →
  Regex.test UUID_V4 key = true →
  get now key (service w) = (Some e, service w) →
  intercept req now now' next w =
    (EMPTY,
     {| service := service w;
        res := status_json 200 (body e) (setHeader "X-Idempotency-Result" "cached" (res w));
        app := app w;
        trace := trace w ++ [CacheGet key] |}).
Proof.
  intros Hh Ht Hg. pass_validation Hh Ht. by rewrite Hg.
Qed.

Lemma intercept_miss_ok req now now' next w key svc data app' :
  headers req !! "idempotency-key" = Some key →
  Regex.test UUID_V4 key = true →
  get now key (service w) = (None, svc) →
  next (set_idempotencyKey key req) (app w) = (Returned data, app') →
  intercept req now now' next w =
    (Next data,
     {| service := set now' key data svc;
        res := setHeader "X-Idempotency-Result" "created" (res w);
        app := app';
        trace := (trace w ++ [CacheGet key]) ++ [Handle; CacheSet key] |}).
Proof.
  intros Hh Ht Hg Hn. pass_validation Hh Ht. by rewrite Hg, Hn.
Qed.

Lemma intercept_miss_err req now now' next w key svc err app' :
  headers req !! "idempotency-key" = Some key →
  Regex.test UUID_V4 key = true →
  get now key (service w) = (None, svc) →
  next (set_idempotencyKey key req) (app w) = (Threw err, app') →
  intercept req now now' next w =
    (Errored err,
     {| service := svc; res := res w; app := app';
        trace := (trace w ++ [CacheGet key]) ++ [Handle] |}).
Proof.
  intros Hh Ht Hg Hn. pass_validation Hh Ht. by rewrite Hg, Hn.
Qed.

Lemma intercept_missing req now now' next w :
  falsy (headers req !! "idempotency-key") = true →
  intercept req now now' next w = (Thrown (BadRequestException missing_key), w).
Proof. intros H. unfold intercept. by rewrite H. Qed.

Lemma intercept_invalid req now now' next w key :
  headers req !! "idempotency-key" = Some key → key ≠ "" →
  Regex.test UUID_V4 key = false →
  intercept req now now' next w = (Thrown (BadRequestException invalid_key), w).
Proof.
  intros Hh Hne Ht. unfold intercept. rewrite Hh. simpl.
  rewrite bool_decide_eq_false_2 by done. by rewrite Ht.
Qed.

(** The lifetime is fixed at construction. *)
Lemma intercept_ttl req now now' next w :
  ttlMs (service (intercept req now now' next w).2) = ttlMs (service w).
Proof.
  unfold intercept.
  destruct (falsy _); [done|].
  destruct (negb _); [done|].
  pose proof (get_ttl now (default "" (headers req !! "idempotency-key")) (service w)) as Httl.
  destruct (get _ _ _) as [[c|] svc]; simpl in *; [done|].
  destruct (next _ _) as [[data|err] app']; simpl; done.
Qed.

(** Only well-formed keys ever enter the store. *)
Lemma keys_valid_create ttl : keys_valid (Body := Body) (IdempotencyService.create ttl).
Proof. intros k [x Hx]. simpl in Hx. by rewrite lookup_empty in Hx. Qed.

Lemma keys_valid_intercept req now now' next w :
  keys_valid (service w) → keys_valid (service (intercept req now now' next w).2).
Proof.
  intros Hv. unfold intercept.
  destruct (falsy _); [done|].
  destruct (negb _) eqn:Ht; [done|].
  apply negb_false_iff in Ht.
  set (key := default "" _) in *.
  destruct (get now key (service w)) as [[c|] svc] eqn:Hg; simpl.
  - by apply get_hit_inv in Hg as (-> & _).
  - assert (keys_valid svc) as Hsvc.
    { intros k Hk. apply Hv.
      destruct (decide (k = key)) as [->|Hne].
      - apply get_miss_gone in Hg. rewrite Hg in Hk. by destruct Hk.
      - pose proof (get_other now key k (service w) Hne) as Ho.
        rewrite Hg in Ho. simpl in Ho. by rewrite <- Ho. }
    destruct (next _ _) as [[data|err] app']; simpl; [|done].
    intros k Hk. destruct (decide (k = key)) as [->|Hne]; [done|].
    apply Hsvc. by rewrite set_other in Hk.
Qed.

(** A record that is live when a request arrives is the same record
    when the request has been served, whatever the request was. *)
Lemma intercept_keeps_live req now now' next w k e :
  store (service w) !! k = Some e →
  now - createdAt e < ttlMs (service w) →
  store (service (intercept req now now' next w).2) !! k = Some e.
Proof.
  intros Hk Hlive. unfold intercept.
  destruct (falsy _); [done|].
  destruct (negb _); [done|].
  set (key := default "" _) in *.
  destruct (decide (k = key)) as [->|Hne].
  - by rewrite (get_live now key (service w) e).
  - pose proof (get_other now key k (service w) Hne) as Ho.
    destruct (get now key (service w)) as [[c|] svc] eqn:Hg; simpl in *.
    + by rewrite Ho.
    + destruct (next _ _) as [[data|err] app']; simpl.
      * by rewrite lookup_insert_ne, Ho.
      * by rewrite Ho.
Qed.

End InterceptFacts.

(** ** Idempotent creation *)

Section IdempotencyClaims.
Import Http IdempotencyService IdempotencyInterceptor.
Context {Payload Body App : Type}.
Implicit Types (req : Request Payload) (w : World Body App).
Implicit Types (next : CallHandler Payload Body App).
Implicit Types (now : Z) (key k : string) (e : CachedEntry Body).

(** A request whose key misses the store runs the handler, once, and
    passes on what the handler produced. *)
Lemma intercept_miss_runs_handler req now now' next w key svc :
  headers req !! "idempotency-key" = Some key →
  Regex.test UUID_V4 key = true →
  get now key (service w) = (None, svc) →
  let r := intercept req now now' next w in
  let h := next (set_idempotencyKey key req) (app w) in
  r.1 = outcome_of h.1 ∧ app r.2 = h.2 ∧
  ∃ rest, trace r.2 = trace w ++ [CacheGet key; Handle] ++ rest.
Proof.
  intros Hh Ht Hg. simpl.
  destruct (next (set_idempotencyKey key req) (app w)) as [[data|err] app'] eqn:Hn.
  - rewrite (intercept_miss_ok req now now' next w key svc data app') by done.
    simpl. repeat split. exists [CacheSet key]. by rewrite <- app_assoc.
  - rewrite (intercept_miss_err req now now' next w key svc err app') by done.
    simpl. repeat split. exists []. by rewrite <- app_assoc.
Qed.

(** C1. A request whose Idempotency-Key is the key of a record still
    within its lifetime is answered from the store: the interceptor
    sends status 200 with the recorded body as it is, sets
    X-Idempotency-Result to cached, returns the empty stream, and calls
    neither the handler nor [set] (the application state and the store
    are untouched, the only call that leaves the interceptor is the
    lookup). Nothing but the key is read: any other request carrying the
    same key, whatever its body and handler, gets the same answer. *)
Theorem C1_repeated_key_served_from_cache req now now' next w key e :
  keys_valid (service w) →
  headers req !! "idempotency-key" = Some key →
  store (service w) !! key = Some e →
  now - createdAt e < ttlMs (service w) →
  let r := intercept req now now' next w in
  r.1 = EMPTY ∧
  sent (res r.2) = Some (200, body e) ∧
  resHeaders (res r.2) !! "X-Idempotency-Result" = Some "cached" ∧
  service r.2 = service w ∧
  app r.2 = app w ∧
  trace r.2 = trace w ++ [CacheGet key] ∧
  ∀ req2 now2 now2' next2,
    headers req2 !! "idempotency-key" = Some key →
    now2 - createdAt e < ttlMs (service w) →
    (intercept req2 now2 now2' next2 w).1 = r.1 ∧
    res (intercept req2 now2 now2' next2 w).2 = res r.2 ∧
    app (intercept req2 now2 now2' next2 w).2 = app r.2.
Proof.
  intros Hv Hh Hk Hlive.
  assert (Regex.test UUID_V4 key = true) as Ht by (apply Hv; by rewrite Hk).
  pose proof (get_live now key (service w) e Hk Hlive) as Hg.
  simpl. rewrite (intercept_hit req now now' next w key e) by done. simpl.
  refine (conj eq_refl (conj eq_refl (conj _ (conj eq_refl (conj eq_refl (conj eq_refl _)))))).
  - apply lookup_insert_eq.
  - intros req2 now2 now2' next2 Hh2 Hlive2.
    pose proof (get_live now2 key (service w) e Hk Hlive2) as Hg2.
    by rewrite (intercept_hit req2 now2 now2' next2 w key e).
Qed.

(** C2, as amended. [set] is [Map.prototype.set]: it always puts the
    record (body, now) under the key, also over a record that is still
    live. What keeps a live record as it is, is the interceptor: it
    calls [set] only after the lookup of that key missed, so a request,
    whatever its key, leaves every record that is live on its arrival
    with the same body and the same creation time. *)
Theorem C2_set_replaces_intercept_preserves req now now' next w k e (b : Body) t :
  store (service w) !! k = Some e →
  now - createdAt e < ttlMs (service w) →
  store (set t k b (service w)) !! k = Some {| body := b; createdAt := t |} ∧
  (∀ k', k' ≠ k → store (set t k b (service w)) !! k' = store (service w) !! k') ∧
  store (service (intercept req now now' next w).2) !! k = Some e.
Proof.
  intros Hk Hlive. split; [apply set_lookup|]. split.
  - intros k' Hne. by apply set_other.
  - by apply intercept_keeps_live.
Qed.

(** C3, as amended. A request without the Idempotency-Key header, or
    with an empty one, is refused with MISSING_IDEMPOTENCY_KEY; a
    request whose header is a non-empty string that the pattern
    [UUID_V4] does not match is refused with INVALID_IDEMPOTENCY_KEY.
    Both are thrown as a 400 before anything else happens: the world
    (store, response, application state, trace of calls) is the one the
    request found, so no lookup, no [set] and no handler call took
    place. *)
Theorem C3_key_validated_before_anything_runs req now now' next w :
  (falsy (headers req !! "idempotency-key") = true →
     intercept req now now' next w = (Thrown (BadRequestException missing_key), w)) ∧
  (∀ key, headers req !! "idempotency-key" = Some key → key ≠ "" →
     Regex.test UUID_V4 key = false →
     intercept req now now' next w = (Thrown (BadRequestException invalid_key), w)) ∧
  getCode (BadRequestException missing_key) = Some "MISSING_IDEMPOTENCY_KEY" ∧
  getCode (BadRequestException invalid_key) = Some "INVALID_IDEMPOTENCY_KEY" ∧
  getStatus (BadRequestException missing_key) = Some 400 ∧
  getStatus (BadRequestException invalid_key) = Some 400.
Proof.
  split; [apply intercept_missing|].
  split; [intros key; apply intercept_invalid|done].
Qed.

(** C7. When the key is well formed, the lookup misses and the handler
    fails, the error is passed on and [set] is not called: the store is
    the one the lookup left (the very store the request found when the
    key was simply absent), it holds nothing under the key, and every
    other key is as before. A later request with the same key therefore
    misses again and runs its handler. *)
Theorem C7_failure_is_not_cached req now now' next w key svc err app' :
  headers req !! "idempotency-key" = Some key →
  Regex.test UUID_V4 key = true →
  get now key (service w) = (None, svc) →
  next (set_idempotencyKey key req) (app w) = (Threw err, app') →
  let r := intercept req now now' next w in
  r.1 = Errored err ∧
  service r.2 = svc ∧
  store (service r.2) !! key = None ∧
  (∀ k, k ≠ key → store (service r.2) !! k = store (service w) !! k) ∧
  (store (service w) !! key = None → service r.2 = service w) ∧
  trace r.2 = trace w ++ [CacheGet key; Handle] ∧
  ∀ req2 now2 now2' next2,
    headers req2 !! "idempotency-key" = Some key →
    let r2 := intercept req2 now2 now2' next2 r.2 in
    let h2 := next2 (set_idempotencyKey key req2) (app r.2) in
    r2.1 = outcome_of h2.1 ∧ app r2.2 = h2.2 ∧
    ∃ rest, trace r2.2 = trace r.2 ++ [CacheGet key; Handle] ++ rest.
Proof.
  intros Hh Ht Hg Hn. simpl.
  rewrite (intercept_miss_err req now now' next w key svc err app') by done.
  simpl. pose proof (get_miss_gone now key (service w) svc Hg) as Hgone.
  refine (conj eq_refl (conj eq_refl (conj Hgone (conj _ (conj _ (conj _ _)))))).
  - intros k Hne. pose proof (get_other now key k (service w) Hne) as Ho.
    by rewrite Hg in Ho.
  - intros Habs. rewrite get_absent in Hg by done. by injection Hg.
  - by rewrite <- app_assoc.
  - intros req2 now2 now2' next2 Hh2.
    set (w1 := {| service := svc; res := res w; app := app'; trace := _ |}).
    exact (intercept_miss_runs_handler req2 now2 now2' next2 w1 key svc
             Hh2 Ht (get_absent now2 key svc Hgone)).
Qed.

(** C8. A record whose age has reached the lifetime (is equal to it or
    above it) is absent for the lookup, which returns null and deletes
    it; a record whose age is below the lifetime is returned, the store
    unchanged. The lifetime is 86400 seconds when none is configured. A
    request repeating the key of a record that has reached its lifetime
    runs the handler again and passes on what it produces. *)
Theorem C8_record_at_or_past_ttl_is_absent req now now' next w key e :
  store (service w) !! key = Some e →
  (ttlMs (service w) ≤ Spec.age now e →
     get now key (service w)
       = (None, {| store := delete key (store (service w)); ttlMs := ttlMs (service w) |}) ∧
     store (get now key (service w)).2 !! key = None) ∧
  (Spec.age now e < ttlMs (service w) →
     get now key (service w) = (Some e, service w)) ∧
  ttlMs (IdempotencyService.create (Body := Body) None) = Spec.default_ttl_seconds * 1000 ∧
  (ttlMs (service w) ≤ Spec.age now e →
   headers req !! "idempotency-key" = Some key →
   Regex.test UUID_V4 key = true →
   let r := intercept req now now' next w in
   let h := next (set_idempotencyKey key req) (app w) in
   r.1 = outcome_of h.1 ∧ app r.2 = h.2 ∧
   ∃ rest, trace r.2 = trace w ++ [CacheGet key; Handle] ++ rest).
Proof.
  intros Hk. unfold Spec.age.
  pose proof (get_expired now key (service w) e Hk) as Hexp.
  split; [|split; [|split]].
  - intros Hold. split; [by apply Hexp|].
    rewrite Hexp by done. apply lookup_delete_eq.
  - intros Hlive. by apply get_live.
  - done.
  - intros Hold Hh Ht. eapply intercept_miss_runs_handler; [done..|by apply Hexp].
Qed.

End IdempotencyClaims.

(** *** The statements above on sample requests *)

Section IdempotencySamples.
Import Http IdempotencyService IdempotencyInterceptor.

Lemma keys_valid_service1 : keys_valid Sample.service1.
Proof.
  intros k [x Hx]. simpl in Hx.
  apply lookup_singleton_Some in Hx as [<- _]. reflexivity.
Qed.

(** A repeat of [key1] with another body, 4 seconds after the record
    was made: body 7 comes back and the call counter stays at 0. *)
Lemma C1_witness :
  let r := intercept (Sample.request (Some Sample.key1) "another body") 5000 5001
             Sample.count_handler Sample.world1 in
  r.1 = EMPTY ∧
  sent (res r.2) = Some (200, 7%nat) ∧
  resHeaders (res r.2) !! "X-Idempotency-Result" = Some "cached" ∧
  service r.2 = Sample.service1 ∧
  app r.2 = O ∧
  trace r.2 = [] ++ [CacheGet Sample.key1] ∧
  ∀ (req2 : Request string) now2 now2' (next2 : CallHandler string nat nat),
    headers req2 !! "idempotency-key" = Some Sample.key1 →
    now2 - createdAt Sample.entry1 < ttlMs (service Sample.world1) →
    (intercept req2 now2 now2' next2 Sample.world1).1 = r.1 ∧
    res (intercept req2 now2 now2' next2 Sample.world1).2 = res r.2 ∧
    app (intercept req2 now2 now2' next2 Sample.world1).2 = app r.2.
Proof.
  apply (C1_repeated_key_served_from_cache
           (Sample.request (Some Sample.key1) "another body") 5000 5001
           Sample.count_handler Sample.world1 Sample.key1 Sample.entry1).
  - exact keys_valid_service1.
  - reflexivity.
  - reflexivity.
  - reflexivity.
Defined.

(** C2 as stated fails: a second [set] on the live record of [key1]
    (made at 1000, written again at 2000 with body 9) is not a no-op;
    the record now has the new body and the new creation time. *)
Lemma C2_counterexample :
  store Sample.service1 !! Sample.key1 = Some Sample.entry1 ∧
  2000 - createdAt Sample.entry1 < ttlMs Sample.service1 ∧
  store (set 2000 Sample.key1 9%nat Sample.service1) !! Sample.key1
    = Some {| body := 9%nat; createdAt := 2000 |} ∧
  set 2000 Sample.key1 9%nat Sample.service1 ≠ Sample.service1.
Proof.
  split; [reflexivity|]. split; [reflexivity|]. split; [reflexivity|].
  intros Heq.
  assert (store (set 2000 Sample.key1 9%nat Sample.service1) !! Sample.key1
          = store Sample.service1 !! Sample.key1) as H by by rewrite Heq.
  discriminate H.
Qed.

Lemma C2_witness :
  store (set 2000 Sample.key1 9%nat Sample.service1) !! Sample.key1
    = Some {| body := 9%nat; createdAt := 2000 |} ∧
  (∀ k', k' ≠ Sample.key1 →
     store (set 2000 Sample.key1 9%nat Sample.service1) !! k'
       = store Sample.service1 !! k') ∧
  store (service (intercept (Sample.request (Some Sample.key2) "body") 5000 5001
                    Sample.count_handler Sample.world1).2) !! Sample.key1
    = Some Sample.entry1.
Proof.
  apply (C2_set_replaces_intercept_preserves
           (Sample.request (Some Sample.key2) "body") 5000 5001
           Sample.count_handler Sample.world1 Sample.key1 Sample.entry1 9%nat 2000).
  - reflexivity.
  - reflexivity.
Defined.

(** C3 as stated fails for a header that is present and empty: it does
    not match the pattern, and the code is MISSING_IDEMPOTENCY_KEY, not
    INVALID_IDEMPOTENCY_KEY. *)
Lemma C3_counterexample :
  let req := Sample.request (Some "") "body" in
  let r := intercept req 0 0 Sample.count_handler Sample.world0 in
  headers req !! "idempotency-key" = Some "" ∧
  Regex.test UUID_V4 "" = false ∧
  r.1 = Thrown (BadRequestException missing_key) ∧
  r.1 ≠ Thrown (BadRequestException invalid_key).
Proof.
  split; [reflexivity|]. split; [reflexivity|]. split; [reflexivity|].
  discriminate.
Qed.

Lemma C3_witness :
  intercept (Sample.request None "body") 0 0 Sample.count_handler Sample.world1
    = (Thrown (BadRequestException missing_key), Sample.world1) ∧
  intercept (Sample.request (Some "not-a-uuid") "body") 0 0 Sample.count_handler
      Sample.world1
    = (Thrown (BadRequestException invalid_key), Sample.world1).
Proof.
  split.
  - apply (proj1 (C3_key_validated_before_anything_runs
                    (Sample.request None "body") 0 0 Sample.count_handler Sample.world1)).
    reflexivity.
  - apply (proj1 (proj2 (C3_key_validated_before_anything_runs
                    (Sample.request (Some "not-a-uuid") "body") 0 0
                    Sample.count_handler Sample.world1)) "not-a-uuid").
    + reflexivity.
    + discriminate.
    + reflexivity.
Defined.

(** A first request with a fresh key whose handler fails, then a retry. *)
Lemma C7_witness :
  let r := intercept (Sample.request (Some Sample.key1) "body") 10 20
             Sample.failing_handler Sample.world0 in
  r.1 = Errored (Error "boom") ∧
  service r.2 = service Sample.world0 ∧
  store (service r.2) !! Sample.key1 = None ∧
  (∀ k, k ≠ Sample.key1 →
     store (service r.2) !! k = store (service Sample.world0) !! k) ∧
  (store (service Sample.world0) !! Sample.key1 = None →
     service r.2 = service Sample.world0) ∧
  trace r.2 = [] ++ [CacheGet Sample.key1; Handle] ∧
  ∀ (req2 : Request string) now2 now2' (next2 : CallHandler string nat nat),
    headers req2 !! "idempotency-key" = Some Sample.key1 →
    let r2 := intercept req2 now2 now2' next2 r.2 in
    let h2 := next2 (set_idempotencyKey Sample.key1 req2) (app r.2) in
    r2.1 = outcome_of h2.1 ∧ app r2.2 = h2.2 ∧
    ∃ rest, trace r2.2 = trace r.2 ++ [CacheGet Sample.key1; Handle] ++ rest.
Proof.
  apply (C7_failure_is_not_cached
           (Sample.request (Some Sample.key1) "body") 10 20
           Sample.failing_handler Sample.world0 Sample.key1
           (service Sample.world0) (Error "boom") 1%nat).
  - reflexivity.
  - reflexivity.
  - reflexivity.
  - reflexivity.
Defined.

(** C8 as stated fails for a record whose age is the lifetime to the
    millisecond: the age does not exceed the lifetime, and yet the
    lookup returns null and deletes the record instead of returning
    it. *)
Lemma C8_counterexample :
  store Sample.service1 !! Sample.key1 = Some Sample.entry1 ∧
  Spec.age (1000 + 86400000) Sample.entry1 = ttlMs Sample.service1 ∧
  ¬ (ttlMs Sample.service1 < Spec.age (1000 + 86400000) Sample.entry1) ∧
  get (1000 + 86400000) Sample.key1 Sample.service1
    = (None, {| store := delete Sample.key1 (store Sample.service1);
                ttlMs := ttlMs Sample.service1 |}) ∧
  (get (1000 + 86400000) Sample.key1 Sample.service1).1 ≠ Some Sample.entry1.
Proof.
  split; [reflexivity|]. split; [reflexivity|]. split; [vm_compute; discriminate|].
  split; [reflexivity|]. discriminate.
Qed.

(** The record of [key1], made at 1000 with the default lifetime: at
    the millisecond its age equals the lifetime it is evicted, and so it
    is one millisecond later; one millisecond earlier it is returned. *)
Lemma C8_witness :
  get (1000 + 86400000) Sample.key1 Sample.service1
    = (None, {| store := delete Sample.key1 (store Sample.service1);
                ttlMs := 86400000 |}) ∧
  get (1000 + 86400001) Sample.key1 Sample.service1
    = (None, {| store := delete Sample.key1 (store Sample.service1);
                ttlMs := 86400000 |}) ∧
  get (1000 + 86399999) Sample.key1 Sample.service1 = (Some Sample.entry1, Sample.service1).
Proof.
  split; [|split].
  - apply (proj1 (C8_record_at_or_past_ttl_is_absent
                    (Sample.request (Some Sample.key1) "body") (1000 + 86400000) 0
                    Sample.count_handler Sample.world1 Sample.key1 Sample.entry1
                    eq_refl)).
    vm_compute. discriminate.
  - apply (proj1 (C8_record_at_or_past_ttl_is_absent
                    (Sample.request (Some Sample.key1) "body") (1000 + 86400001) 0
                    Sample.count_handler Sample.world1 Sample.key1 Sample.entry1
                    eq_refl)).
    vm_compute. discriminate.
  - apply (proj1 (proj2 (C8_record_at_or_past_ttl_is_absent
                    (Sample.request (Some Sample.key1) "body") (1000 + 86399999) 0
                    Sample.count_handler Sample.world1 Sample.key1 Sample.entry1
                    eq_refl))).
    reflexivity.
Defined.

End IdempotencySamples.

(** ** Pricing *)

Section PricingClaims.
Import Http JsNumber JsObject QuotesService.
#[local] Open Scope float_scope.







Lemma callExternalAggregator_ok dto failDraw :
  (failDraw <? 0.05) = false →
  callExternalAggregator dto failDraw
    = inr {| r_premium :=
               Math_round
                 (dto_coverageAmount dto
                  * ToNumber (coalesce (get_property RATES (dto_documentType dto)) 0.02)
                  * 100) / 100;
             r_status := APPROVED |}.
Proof. intros H. unfold callExternalAggregator. by rewrite H. Qed.

Lemma callExternalAggregator_fails dto failDraw :
  (failDraw <? 0.05) = true →
  callExternalAggregator dto failDraw = inl (Error "External aggregator timeout").
Proof. intros H. unfold callExternalAggregator. by rewrite H. Qed.


(** On the sample payload of the test suite, one type after the other. *)
Example premium_auto :
  callExternalAggregator (Sample.dto_with "AUTO" 50000) 0.5
    = inr {| r_premium := 1250; r_status := APPROVED |}.
Proof. vm_compute. reflexivity. Qed.

Example premium_home :
  callExternalAggregator (Sample.dto_with "HOME" 50000) 0.5
    = inr {| r_premium := 900; r_status := APPROVED |}.
Proof. vm_compute. reflexivity. Qed.

Example premium_life :
  callExternalAggregator (Sample.dto_with "LIFE" 50000) 0.5
    = inr {| r_premium := 600; r_status := APPROVED |}.
Proof. vm_compute. reflexivity. Qed.

Example premium_health :
  callExternalAggregator (Sample.dto_with "HEALTH" 50000) 0.5
    = inr {| r_premium := 1000; r_status := APPROVED |}.
Proof. vm_compute. reflexivity. Qed.

Example premium_travel :
  callExternalAggregator (Sample.dto_with "TRAVEL" 50000) 0.5
    = inr {| r_premium := 400; r_status := APPROVED |}.
Proof. vm_compute. reflexivity. Qed.

Example premium_unlisted :
  callExternalAggregator (Sample.dto_with "BOAT" 50000) 0.5
    = inr {| r_premium := 1000; r_status := APPROVED |}.
Proof. vm_compute. reflexivity. Qed.

(** 1234.56 at the LIFE rate is 14.81472, 14.81. *)
Example premium_cents :
  fallback (Sample.dto_with "LIFE" 1234.56)
    = inr {| r_premium := 14.81; r_status := PENDING |}.
Proof. vm_compute. reflexivity. Qed.








End PricingClaims.

(** ** The quote store *)

Section QuoteStoreClaims.
Import Http QuotesService.

(** With nothing configured the breaker gets the defaults of
    [onModuleInit]. *)
Lemma cbOpts_defaults :
  cbOpts (λ _, None)
    = {| timeout := 3000; errorThresholdPercentage := 50;
         resetTimeout := 30000; volumeThreshold := 5 |}.
Proof. reflexivity. Qed.

(** With the fallback registered, [fire] always produces a result; its
    premium is the one the fallback computes, and its status tells
    which path produced it. *)
Lemma fire_value d dto :
  ∃ r, fire d dto = inr r ∧
       fallback dto = inr {| r_premium := r_premium r; r_status := PENDING |} ∧
       (r_status r = APPROVED ↔
        ∃ failDraw, d = Invoked failDraw true ∧ (failDraw <? 0.05)%float = false).
Proof.
  destruct d as [failDraw [|]|]; simpl.
  - destruct (failDraw <? 0.05)%float eqn:Hf.
    + rewrite callExternalAggregator_fails by done.
      eexists; split; [done|]. split; [done|]. simpl. split; [done|].
      intros (f & [= ->] & Hf'). congruence.
    + rewrite callExternalAggregator_ok by done.
      eexists; split; [done|]. split; [done|]. simpl. split; [|done].
      intros _. by exists failDraw.
  - eexists; split; [done|]. split; [done|]. simpl.
    split; [done|]. by intros (f & [=] & _).
  - eexists; split; [done|]. split; [done|]. simpl.
    split; [done|]. by intros (f & [=] & _).
Qed.

(** [createQuote] returns a quote, stored under its own id. *)
Lemma createQuote_stores dto d uuid t1 t2 s :
  ∃ q, createQuote dto d uuid t1 t2 s
       = (inr q,
          {| quotesDb := <[quoteId q := q]> (quotesDb s);
             quotesCreatedTotal :=
               inc (Status_to_string (status q), documentType q) (quotesCreatedTotal s) |}) ∧
       quoteId q = make_quoteId uuid ∧
       fallback dto = inr {| r_premium := premium q; r_status := PENDING |} ∧
       (status q = APPROVED ↔
        ∃ failDraw, d = Invoked failDraw true ∧ (failDraw <? 0.05)%float = false).
Proof.
  destruct (fire_value d dto) as (r & Hr & Hp & Hs).
  unfold createQuote. rewrite Hr. by eexists.
Qed.

Lemma createQuote_other dto d uuid t1 t2 s (id : string) :
  make_quoteId uuid ≠ id →
  quotesDb (createQuote dto d uuid t1 t2 s).2 !! id = quotesDb s !! id.
Proof.
  intros Hne. destruct (createQuote_stores dto d uuid t1 t2 s) as (q & -> & Hid & _).
  simpl. rewrite lookup_insert_ne; [done|congruence].
Qed.

Lemma createQuotes_other cs s (id : string) :
  Forall (λ c, make_quoteId (c_uuid c) ≠ id) cs →
  quotesDb (createQuotes cs s) !! id = quotesDb s !! id.
Proof.
  intros Hcs. revert s. induction Hcs as [|c cs Hc _ IH]; intros s; [done|].
  unfold createQuotes in *. simpl. rewrite IH. by apply createQuote_other.
Qed.

(** The id is [q-] followed by at most 16 characters, none a hyphen
    taken from the identifier. *)
Example make_quoteId_sample :
  make_quoteId "b3ac17ab-1f3f-4558-ab8a-092c4ceb38e4" = "q-b3ac17ab1f3f4558".
Proof. reflexivity. Qed.

(** C9. Looking up an id the quote store has no entry for throws the
    NotFoundException with status 404 and code NOT_FOUND: an
    HttpException, not a plain error and not a result. Looking up an id
    that has an entry returns that entry. *)
Theorem C9_unknown_quote_is_not_found (id : string) (s : State) :
  (quotesDb s !! id = None →
     getQuoteById id s = inl (NotFoundException (not_found id)) ∧
     getStatus (NotFoundException (not_found id)) = Some 404 ∧
     getCode (NotFoundException (not_found id)) = Some "NOT_FOUND" ∧
     (∀ msg, NotFoundException (not_found id) ≠ Error msg) ∧
     (∀ q, getQuoteById id s ≠ inr q)) ∧
  (∀ q, quotesDb s !! id = Some q → getQuoteById id s = inr q).
Proof.
  unfold getQuoteById. split.
  - intros ->. by repeat split.
  - by intros q ->.
Qed.

(** C10. [createQuote] always returns a quote [q]; on return [q] is in
    the quote store under [q.quoteId], so [getQuoteById(q.quoteId)]
    returns exactly [q], and still does after any run of later
    creations none of which is given the same id. The status of [q] is
    APPROVED or PENDING: APPROVED exactly when the breaker ran the
    pricing call and the call succeeded in time. *)
Theorem C10_created_quote_is_read_back dto d uuid t1 t2 s :
  ∃ q, (createQuote dto d uuid t1 t2 s).1 = inr q ∧
       quotesDb (createQuote dto d uuid t1 t2 s).2 !! quoteId q = Some q ∧
       getQuoteById (quoteId q) (createQuote dto d uuid t1 t2 s).2 = inr q ∧
       (status q = APPROVED ∨ status q = PENDING) ∧
       (status q = APPROVED ↔
        ∃ failDraw, d = Invoked failDraw true ∧ (failDraw <? 0.05)%float = false) ∧
       ∀ later,
         Forall (λ c, make_quoteId (c_uuid c) ≠ quoteId q) later →
         getQuoteById (quoteId q) (createQuotes later (createQuote dto d uuid t1 t2 s).2)
           = inr q.
Proof.
  destruct (createQuote_stores dto d uuid t1 t2 s) as (q & Hc & Hid & _ & Hs).
  exists q. rewrite Hc. simpl.
  assert (∀ s' : State, quotesDb s' !! quoteId q = Some q → getQuoteById (quoteId q) s' = inr q)
    as Hget by (intros s' H; unfold getQuoteById; by rewrite H).
  split; [done|]. split; [apply lookup_insert_eq|].
  split; [apply Hget; apply lookup_insert_eq|].
  split; [destruct (status q); auto|]. split; [done|].
  intros later Hlater. apply Hget.
  rewrite createQuotes_other by done. apply lookup_insert_eq.
Qed.

Lemma C9_witness :
  getQuoteById "q-nonexistent" Sample.state0
    = inl (NotFoundException (not_found "q-nonexistent")) ∧
  getStatus (NotFoundException (not_found "q-nonexistent")) = Some 404 ∧
  getCode (NotFoundException (not_found "q-nonexistent")) = Some "NOT_FOUND" ∧
  (∀ msg, NotFoundException (not_found "q-nonexistent") ≠ Error msg) ∧
  (∀ q, getQuoteById "q-nonexistent" Sample.state0 ≠ inr q).
Proof.
  apply (proj1 (C9_unknown_quote_is_not_found "q-nonexistent" Sample.state0)).
  reflexivity.
Defined.

(** A quote made with the breaker open, read back after another
    creation under a different id. *)
Lemma C10_witness :
  ∃ q, (createQuote Sample.dto_auto ShortCircuited Sample.key1 "t1" "t2" Sample.state0).1
         = inr q ∧
       quoteId q = "q-b3ac17ab1f3f4558" ∧
       status q = PENDING ∧
       getQuoteById (quoteId q)
         (createQuotes [mkCreation Sample.dto_auto (Invoked 0.5 true) Sample.key2 "t3" "t4"]
            (createQuote Sample.dto_auto ShortCircuited Sample.key1 "t1" "t2"
               Sample.state0).2)
         = inr q.
Proof.
  destruct (C10_created_quote_is_read_back
              Sample.dto_auto ShortCircuited Sample.key1 "t1" "t2" Sample.state0)
    as (q & Hq & _ & _ & _ & _ & Hlater).
  exists q. split; [exact Hq|].
  injection Hq as <-.
  split; [reflexivity|]. split; [reflexivity|].
  apply Hlater. repeat constructor. discriminate.
Defined.

End QuoteStoreClaims.

(** ** Two requests in a row *)

Section Idempotence.
Import Http IdempotencyService IdempotencyInterceptor.
Context {Payload Body App : Type}.
Implicit Types (req : Request Payload) (w : World Body App).
Implicit Types (next : CallHandler Payload Body App).
Implicit Types (now : Z) (key : string).

(** X10. A first request misses and its handler returns [data] at [now'];
    a second request with the same key arrives at [now2], less than the
    lifetime later. Whatever its body and handler, it is answered with
    [data] from the store and the application state is the one the
    first request left. *)
Lemma repeat_within_ttl req req2 now now' now2 now2' next next2 w key svc data app' :
  headers req !! "idempotency-key" = Some key →
  headers req2 !! "idempotency-key" = Some key →
  Regex.test UUID_V4 key = true →
  get now key (service w) = (None, svc) →
  next (set_idempotencyKey key req) (app w) = (Returned data, app') →
  now2 - now' < ttlMs (service w) →
  let r1 := intercept req now now' next w in
  let r2 := intercept req2 now2 now2' next2 r1.2 in
  r1.1 = Next data ∧
  resHeaders (res r1.2) !! "X-Idempotency-Result" = Some "created" ∧
  r2.1 = EMPTY ∧
  sent (res r2.2) = Some (200, data) ∧
  resHeaders (res r2.2) !! "X-Idempotency-Result" = Some "cached" ∧
  app r2.2 = app' ∧
  service r2.2 = service r1.2.
Proof.
  intros Hh Hh2 Ht Hg Hn Hlive. simpl.
  rewrite (intercept_miss_ok req now now' next w key svc data app') by done.
  simpl. split; [done|]. split; [apply lookup_insert_eq|].
  set (w1 := {| service := set now' key data svc; res := _; app := app'; trace := _ |}).
  assert (get now2 key (service w1)
          = (Some {| body := data; createdAt := now' |}, service w1)) as Hg2.
  { apply get_live; [apply set_lookup|]. simpl.
    pose proof (get_ttl now key (service w)) as Httl. rewrite Hg in Httl.
    simpl in Httl. lia. }
  rewrite (intercept_hit req2 now2 now2' next2 w1 key _ Hh2 Ht Hg2). simpl.
  repeat split. apply lookup_insert_eq.
Qed.

End Idempotence.

(** * Further properties of the code *)

(** ** The store on its own *)

Section StoreComposition.
Import IdempotencyService.
Context {Body : Type}.
Implicit Types (s : IdempotencyService.t Body) (e : CachedEntry Body).
Implicit Types (now : Z) (key k : string).

(** X1. What [set] wrote is what [get] returns while the lifetime lasts;
    from the instant the lifetime has passed the lookup misses and the
    store is the one before the [set], without the key. *)
Theorem set_then_get now now' key (b : Body) s :
  (now' - now < ttlMs s →
     get now' key (set now key b s)
       = (Some {| body := b; createdAt := now |}, set now key b s)) ∧
  (ttlMs s ≤ now' - now →
     get now' key (set now key b s)
       = (None, {| store := delete key (store s); ttlMs := ttlMs s |})).
Proof.
  split; intros H.
  - apply get_live; [apply set_lookup|]. simpl. lia.
  - rewrite (get_expired now' key (set now key b s) {| body := b; createdAt := now |});
      [|apply set_lookup|simpl; lia].
    simpl. by rewrite delete_insert_eq.
Qed.

(** X2. Reading does not prolong a record: whatever lookups came before,
    at any instant from [createdAt + ttl] on the record is absent. *)
Theorem lookups_do_not_prolong now1 now2 key s e :
  store s !! key = Some e →
  ttlMs s ≤ now2 - createdAt e →
  get now2 key (get now1 key s).2
    = (None, {| store := delete key (store s); ttlMs := ttlMs s |}).
Proof.
  intros Hk Hold. unfold get at 2. rewrite Hk. case_bool_decide; simpl.
  - by apply (get_expired now2 key s e).
  - by rewrite get_absent by apply lookup_delete_eq.
Qed.

(** X3. A second lookup at the same instant changes nothing more. *)
Theorem get_twice now key s :
  get now key (get now key s).2 = get now key s.
Proof.
  unfold get at 2 3. destruct (store s !! key) as [e|] eqn:Hk.
  - case_bool_decide; simpl.
    + by apply get_live.
    + rewrite get_absent by apply lookup_delete_eq. done.
  - by apply get_absent.
Qed.

(** X4. A lookup of one key leaves every other key as it is, expired or
    not: eviction is of the key asked for only. *)
Theorem get_evicts_only_its_key now key k s :
  k ≠ key →
  store (get now key s).2 !! k = store s !! k ∧ ttlMs (get now key s).2 = ttlMs s.
Proof. intros Hne. split; [by apply get_other|apply get_ttl]. Qed.

End StoreComposition.

(** ** The interceptor over many requests *)

Section InterceptRuns.
Import Http IdempotencyService IdempotencyInterceptor Run.
Context {Payload Body App : Type}.
Implicit Types (req : Request Payload) (w : World Body App).
Implicit Types (next : CallHandler Payload Body App).
Implicit Types (now : Z) (key k : string) (e : CachedEntry Body).
Implicit Types (arrivals : list (Arrival Payload Body App)).

Lemma serve_cons a arrivals w :
  serve (a :: arrivals) w
    = serve arrivals (intercept (a_req a) (a_now a) (a_done a) (a_next a) w).2.
Proof. reflexivity. Qed.

Lemma serve_ttl arrivals w : ttlMs (service (serve arrivals w)) = ttlMs (service w).
Proof.
  revert w. induction arrivals as [|a arrivals IH]; intros w; [done|].
  rewrite serve_cons, IH. apply intercept_ttl.
Qed.

Lemma intercept_other_key req now now' next w k :
  headers req !! "idempotency-key" ≠ Some k →
  store (service (intercept req now now' next w).2) !! k = store (service w) !! k.
Proof.
  intros Hne. unfold intercept.
  destruct (falsy _) eqn:Hf; [done|].
  destruct (negb _); [done|].
  destruct (headers req !! "idempotency-key") as [key|] eqn:Hh; [|done]. simpl.
  assert (k ≠ key) as Hk by congruence.
  pose proof (get_other now key k (service w) Hk) as Ho.
  destruct (get now key (service w)) as [[c|] svc]; simpl in *; [done|].
  destruct (next _ _) as [[data|err] app']; simpl; [|done].
  by rewrite lookup_insert_ne.
Qed.

(** X5. A request reads and writes the store under its own key only: the
    entry of every other key, live or expired, and the lifetime are as
    the request found them. *)
Theorem intercept_touches_only_its_key req now now' next w k :
  headers req !! "idempotency-key" ≠ Some k →
  store (service (intercept req now now' next w).2) !! k = store (service w) !! k ∧
  ttlMs (service (intercept req now now' next w).2) = ttlMs (service w).
Proof. intros Hne. split; [by apply intercept_other_key|apply intercept_ttl]. Qed.

(** X6. Whatever requests are served, with whatever keys, a record that is
    within its lifetime at each of their arrivals is the same record
    (same body, same creation time) afterwards. *)
Theorem serve_keeps_live_record arrivals w k e :
  store (service w) !! k = Some e →
  Forall (λ a, a_now a - createdAt e < ttlMs (service w)) arrivals →
  store (service (serve arrivals w)) !! k = Some e.
Proof.
  intros Hk Hall. revert w Hk Hall.
  induction arrivals as [|a arrivals IH]; intros w Hk Hall; [done|].
  apply Forall_cons in Hall as [Ha Hall].
  rewrite serve_cons. apply IH.
  - by apply intercept_keeps_live.
  - by rewrite intercept_ttl.
Qed.

(** X7. Any number of repeats of a key whose record is within its lifetime
    leave the store and the application state untouched; the only calls
    made are the lookups, one for each repeat, so no handler runs. *)
Theorem replays_never_run_handler arrivals w key e :
  Regex.test UUID_V4 key = true →
  store (service w) !! key = Some e →
  Forall (λ a, headers (a_req a) !! "idempotency-key" = Some key ∧
               a_now a - createdAt e < ttlMs (service w)) arrivals →
  service (serve arrivals w) = service w ∧
  app (serve arrivals w) = app w ∧
  trace (serve arrivals w) = trace w ++ replicate (length arrivals) (CacheGet key).
Proof.
  intros Ht Hk Hall. revert w Hk Hall.
  induction arrivals as [|a arrivals IH]; intros w Hk Hall.
  - simpl. by rewrite app_nil_r.
  - apply Forall_cons in Hall as [[Hh Hlive] Hall].
    rewrite serve_cons.
    rewrite (intercept_hit (a_req a) (a_now a) (a_done a) (a_next a) w key e Hh Ht)
      by by apply get_live.
    cbn [snd].
    set (w1 := {| service := service w; res := _; app := app w; trace := _ |}).
    destruct (IH w1 Hk Hall) as (Hs & Ha & Htr).
    rewrite Hs, Ha, Htr. simpl. by rewrite <- app_assoc.
Qed.

(** X8. Starting from the store as constructed, every key the store holds
    after any run of requests matches the pattern [UUID_V4]. *)
Theorem served_store_holds_valid_keys arrivals w ttl k :
  service w = IdempotencyService.create ttl →
  is_Some (store (service (serve arrivals w)) !! k) →
  Regex.test UUID_V4 k = true.
Proof.
  intros Hw.
  assert (keys_valid (service w)) as Hv by (rewrite Hw; apply keys_valid_create).
  clear Hw. revert w Hv.
  induction arrivals as [|a arrivals IH]; intros w Hv; [apply Hv|].
  rewrite serve_cons. apply IH. by apply keys_valid_intercept.
Qed.

(** X9. After [clear] nothing is remembered: a request repeating any key,
    however recent its record was, runs its handler. *)
Theorem clear_forgets req now now' next w key :
  headers req !! "idempotency-key" = Some key →
  Regex.test UUID_V4 key = true →
  let w0 := {| service := clear (service w); res := res w; app := app w;
               trace := trace w |} in
  let r := intercept req now now' next w0 in
  let h := next (set_idempotencyKey key req) (app w) in
  r.1 = outcome_of h.1 ∧ app r.2 = h.2 ∧
  ttlMs (service r.2) = ttlMs (service w) ∧
  ∀ k, k ≠ key → store (service r.2) !! k = None.
Proof.
  intros Hh Ht. simpl.
  set (w0 := {| service := clear (service w); res := res w; app := app w;
                trace := trace w |}).
  assert (get now key (service w0) = (None, service w0)) as Hg
    by (apply get_absent; apply lookup_empty).
  destruct (intercept_miss_runs_handler req now now' next w0 key _ Hh Ht Hg)
    as (H1 & H2 & _).
  split; [exact H1|]. split; [exact H2|]. split.
  - by rewrite intercept_ttl.
  - intros k Hne. rewrite intercept_other_key by congruence. apply lookup_empty.
Qed.

End InterceptRuns.

(** ** The shape of the keys [UUID_V4] accepts *)

Section KeyShapeFacts.
Import KeyShape.

Lemma match_piece_spec ic k n (s s' : list ascii) :
  Regex.match_piece ic k n s = Some s' ↔
  ∃ p, s = p ++ s' ∧ length p = n ∧ Forall (λ c, Regex.in_class ic c k = true) p.
Proof.
  revert s. induction n as [|n IH]; intros s; simpl.
  - split.
    + intros [= ->]. by exists [].
    + intros (p & -> & Hl & _). by destruct p.
  - destruct s as [|c s].
    + split; [done|]. intros (p & Hs & Hl & _). by destruct p.
    + destruct (Regex.in_class ic c k) eqn:Hc.
      * rewrite IH. split.
        -- intros (p & -> & Hl & Hf). exists (c :: p). repeat split; [simpl; lia|].
           by constructor.
        -- intros (p & Hs & Hl & Hf). destruct p as [|c' p]; [done|].
           injection Hs as <- ->. apply Forall_cons in Hf as [_ Hf].
           exists p. repeat split; [|done]. simpl in Hl. lia.
      * split; [done|]. intros (p & Hs & Hl & Hf). destruct p as [|c' p]; [done|].
        injection Hs as <- ->. apply Forall_cons in Hf as [Hc' _]. congruence.
Qed.

Lemma match_seq_cons ic p re (s : list ascii) :
  Regex.match_seq ic (p :: re) s
    = match Regex.match_piece ic (Regex.cls p) (Regex.count p) s with
      | Some s' => Regex.match_seq ic re s'
      | None => false
      end.
Proof. reflexivity. Qed.

Lemma match_seq_app ic p re (g s : list ascii) :
  length g = Regex.count p →
  Forall (λ c, Regex.in_class ic c (Regex.cls p) = true) g →
  Regex.match_seq ic (p :: re) (g ++ s) = Regex.match_seq ic re s.
Proof.
  intros Hl Hf. rewrite match_seq_cons.
  assert (Regex.match_piece ic (Regex.cls p) (Regex.count p) (g ++ s) = Some s) as ->; [|done].
  apply match_piece_spec. by exists g.
Qed.

Lemma in_class_hex (c : ascii) :
  Regex.in_class true c hex = bool_decide (c ∈ hex_digits).
Proof. destruct c as [[] [] [] [] [] [] [] []]; vm_compute; reflexivity. Qed.

Lemma in_class_variant (c : ascii) :
  Regex.in_class true c [Regex.Lit "8"; Regex.Lit "9"; Regex.Lit "a"; Regex.Lit "b"]
    = bool_decide (c ∈ variant_digits).
Proof. destruct c as [[] [] [] [] [] [] [] []]; vm_compute; reflexivity. Qed.

Lemma in_class_hyphen (c : ascii) :
  Regex.in_class true c [Regex.Lit "-"] = bool_decide (c = "-"%char).
Proof. destruct c as [[] [] [] [] [] [] [] []]; vm_compute; reflexivity. Qed.

Lemma in_class_four (c : ascii) :
  Regex.in_class true c [Regex.Lit "4"] = bool_decide (c = "4"%char).
Proof. destruct c as [[] [] [] [] [] [] [] []]; vm_compute; reflexivity. Qed.

Lemma Forall_hex (g : list ascii) :
  Forall (λ c, Regex.in_class true c hex = true) g ↔ Forall (λ c, c ∈ hex_digits) g.
Proof.
  apply Forall_iff. intros c. rewrite in_class_hex. apply bool_decide_eq_true.
Qed.

Lemma single (P : ascii → Prop) (p : list ascii) :
  length p = 1%nat → Forall P p → ∃ c, p = [c] ∧ P c.
Proof.
  destruct p as [|c [|c' p]]; [done| |done]. intros _ Hf.
  apply Forall_cons in Hf as [Hc _]. by exists c.
Qed.

End KeyShapeFacts.

Section KeyShapeTheorem.
Import KeyShape.

Lemma match_seq_one ic p re (c : ascii) (s : list ascii) :
  Regex.count p = 1%nat →
  Regex.in_class ic c (Regex.cls p) = true →
  Regex.match_seq ic (p :: re) (c :: s) = Regex.match_seq ic re s.
Proof.
  intros Hn Hc. apply (match_seq_app ic p re [c] s); [done|]. by repeat constructor.
Qed.

(** Takes the next piece of the pattern off the hypothesis [H]. *)
Ltac peel H p Hl Hf :=
  rewrite match_seq_cons in H;
  match type of H with
  | match ?m with _ => _ end = true =>
      let Hp := fresh "Hp" in
      destruct m as [?|] eqn:Hp; [|discriminate H];
      apply match_piece_spec in Hp as (p & -> & Hl & Hf);
      cbn [Regex.cls Regex.count hyphen] in Hl, Hf
  end.

(** The pattern accepts exactly the strings made of five groups of 8,
    4, 4, 4 and 12 hexadecimal digits of either case, joined by
    hyphens, whose third group starts with 4 and whose fourth group
    starts with 8, 9, a or b (or A, B); nothing may come before or
    after. *)
Lemma UUID_V4_decomposition (k : string) :
  Regex.test UUID_V4 k = true ↔
  ∃ g1 g2 g3 v g4 g5,
    list_ascii_of_string k = assemble g1 g2 g3 v g4 g5 ∧
    length g1 = 8%nat ∧ length g2 = 4%nat ∧ length g3 = 3%nat ∧
    length g4 = 3%nat ∧ length g5 = 12%nat ∧
    Forall (λ c, c ∈ hex_digits) (g1 ++ g2 ++ g3 ++ g4 ++ g5) ∧
    v ∈ variant_digits.
Proof.
  unfold Regex.test, UUID_V4. cbn [Regex.pieces Regex.ignoreCase].
  generalize (list_ascii_of_string k). intros s. split.
  - intros H.
    peel H g1 Hl1 Hf1. peel H h1 Hh1 Hc1.
    peel H g2 Hl2 Hf2. peel H h2 Hh2 Hc2.
    peel H f4 Hh3 Hc3. peel H g3 Hl3 Hf3. peel H h3 Hh4 Hc4.
    peel H vv Hh5 Hc5. peel H g4 Hl4 Hf4. peel H h4 Hh6 Hc6.
    peel H g5 Hl5 Hf5.
    destruct (single _ _ Hh1 Hc1) as (c1 & -> & E1).
    destruct (single _ _ Hh2 Hc2) as (c2 & -> & E2).
    destruct (single _ _ Hh3 Hc3) as (c3 & -> & E3).
    destruct (single _ _ Hh4 Hc4) as (c4 & -> & E4).
    destruct (single _ _ Hh5 Hc5) as (v & -> & E5).
    destruct (single _ _ Hh6 Hc6) as (c6 & -> & E6).
    rewrite in_class_hyphen in E1, E2, E4, E6. rewrite in_class_four in E3.
    rewrite in_class_variant in E5.
    apply bool_decide_eq_true in E1 as ->, E2 as ->, E3 as ->, E4 as ->, E6 as ->.
    apply bool_decide_eq_true in E5.
    match type of H with Regex.match_seq _ [] ?r = true => destruct r; [|discriminate H] end.
    exists g1, g2, g3, v, g4, g5. unfold assemble.
    rewrite app_nil_r. split; [done|].
    repeat (split; [done|]). split; [|done].
    rewrite !Forall_app. by rewrite <- !Forall_hex.
  - intros (g1 & g2 & g3 & v & g4 & g5 & -> & Hl1 & Hl2 & Hl3 & Hl4 & Hl5 & Hf & Hv).
    rewrite !Forall_app, <- !Forall_hex in Hf.
    destruct Hf as (Hf1 & Hf2 & Hf3 & Hf4 & Hf5).
    unfold assemble.
    rewrite match_seq_app by done.
    rewrite match_seq_one by done.
    rewrite match_seq_app by done.
    rewrite match_seq_one by done.
    rewrite match_seq_one by done.
    rewrite match_seq_app by done.
    rewrite match_seq_one by done.
    rewrite match_seq_one
      by (try done; cbn [Regex.cls]; rewrite in_class_variant; by apply bool_decide_eq_true).
    rewrite match_seq_app by done.
    rewrite match_seq_one by done.
    rewrite <- (app_nil_r g5). by rewrite match_seq_app.
Qed.

(** X11. The pattern [UUID_V4] accepts exactly the strings made of five
    groups of 8, 4, 4, 4 and 12 hexadecimal digits of either case,
    joined by hyphens, whose third group starts with 4 and whose fourth
    group starts with 8, 9, a or b (or A, B). The 36 characters are
    fixed in number, and nothing may come before or after them. *)
Theorem UUID_V4_shape (k : string) :
  Regex.test UUID_V4 k = true ↔
  ∃ g1 g2 g3 v g4 g5,
    list_ascii_of_string k = assemble g1 g2 g3 v g4 g5 ∧
    length g1 = 8%nat ∧ length g2 = 4%nat ∧ length g3 = 3%nat ∧
    length g4 = 3%nat ∧ length g5 = 12%nat ∧
    Forall (λ c, c ∈ hex_digits) (g1 ++ g2 ++ g3 ++ g4 ++ g5) ∧
    v ∈ variant_digits.
Proof. apply UUID_V4_decomposition. Qed.

End KeyShapeTheorem.

(** ** Quote ids *)

Section QuoteIds.
Import QuotesService KeyShape.

Lemma remove_hyphens_list (s : string) :
  list_ascii_of_string (remove_hyphens s)
    = filter (λ c, c ≠ "-"%char) (list_ascii_of_string s).
Proof.
  induction s as [|c s IH]; [done|]. simpl.
  case_bool_decide as Hc.
  - rewrite filter_cons_False by (intros H; by apply H). done.
  - rewrite filter_cons_True by done. simpl. by rewrite IH.
Qed.

Lemma substring_list (n m : nat) (s : string) :
  list_ascii_of_string (substring n m s) = take m (drop n (list_ascii_of_string s)).
Proof.
  revert n m. induction s as [|c s IH]; intros n m.
  - destruct n, m; done.
  - destruct n as [|n].
    + destruct m as [|m]; [done|]. simpl. by rewrite IH.
    + simpl. apply IH.
Qed.

Lemma append_list (s1 s2 : string) :
  list_ascii_of_string (s1 +:+ s2) = list_ascii_of_string s1 ++ list_ascii_of_string s2.
Proof. induction s1 as [|c s1 IH]; [done|]. simpl. by rewrite IH. Qed.

Lemma list_ascii_of_string_inj (s1 s2 : string) :
  list_ascii_of_string s1 = list_ascii_of_string s2 → s1 = s2.
Proof.
  intros H. rewrite <- (string_of_list_ascii_of_string s1),
    <- (string_of_list_ascii_of_string s2). by rewrite H.
Qed.

Lemma make_quoteId_list (uuid : string) :
  list_ascii_of_string (make_quoteId uuid)
    = "q"%char :: "-"%char
        :: take 16 (filter (λ c, c ≠ "-"%char) (list_ascii_of_string uuid)).
Proof.
  unfold make_quoteId. rewrite append_list, substring_list, remove_hyphens_list. done.
Qed.

Lemma hex_not_hyphen (g : list ascii) :
  Forall (λ c, c ∈ hex_digits) g → filter (λ c, c ≠ "-"%char) g = g.
Proof.
  induction 1 as [|c g Hc _ IH]; [done|].
  rewrite filter_cons_True, IH; [done|].
  intros ->. apply (bool_decide_eq_true_2 _) in Hc. vm_compute in Hc. discriminate Hc.
Qed.

Lemma filter_hyphen (l : list ascii) :
  filter (λ c, c ≠ "-"%char) ("-"%char :: l) = filter (λ c, c ≠ "-"%char) l.
Proof. apply filter_cons_False. intros H. by apply H. Qed.

Lemma filter_other (c : ascii) (l : list ascii) :
  c ≠ "-"%char →
  filter (λ c, c ≠ "-"%char) (c :: l) = c :: filter (λ c, c ≠ "-"%char) l.
Proof. intros H. by apply filter_cons_True. Qed.

(** X12. For every string whatsoever the id starts with [q-], has at most
    16 more characters, and no hyphen among them; an identifier without
    any character but hyphens gives the bare [q-]. *)
Theorem make_quoteId_bounds (uuid : string) :
  ∃ tail, make_quoteId uuid = ("q-" +:+ tail) ∧
          (String.length tail ≤ 16)%nat ∧
          ("-"%char ∉ list_ascii_of_string tail) ∧
          (Forall (λ c, c = "-"%char) (list_ascii_of_string uuid) → tail = "").
Proof.
  exists (substring 0 16 (remove_hyphens uuid)). split; [done|].
  rewrite <- length_list_ascii_of_string, substring_list, remove_hyphens_list. simpl.
  split; [rewrite length_take; lia|]. split.
  - intros Hin. apply elem_of_take in Hin as (i & Hin & _).
    apply list_elem_of_lookup_2 in Hin. by apply list_elem_of_filter in Hin as [Hne _].
  - intros Hall. apply list_ascii_of_string_inj.
    rewrite substring_list, remove_hyphens_list. simpl.
    induction Hall as [|c l -> _ IH]; [done|].
    by rewrite filter_cons_False by (intros H; by apply H).
Qed.

(** X13. The id made from a version-4 identifier is [q-] followed by the
    identifier's first three groups (8, 4 and 4 hexadecimal digits)
    without their hyphens: 18 characters, the fifteenth of which is 4.
    The fourth and fifth groups play no part. *)
Theorem make_quoteId_of_v4 (uuid : string) :
  Regex.test UUID_V4 uuid = true →
  make_quoteId uuid
    = "q-" +:+ substring 0 8 uuid +:+ substring 9 4 uuid +:+ substring 14 4 uuid ∧
  String.length (make_quoteId uuid) = 18%nat ∧
  get 14 (make_quoteId uuid) = Some "4"%char.
Proof.
  intros Ht. apply UUID_V4_decomposition in Ht
    as (g1 & g2 & g3 & v & g4 & g5 & Hk & Hl1 & Hl2 & Hl3 & Hl4 & Hl5 & Hf & Hv).
  rewrite !Forall_app in Hf. destruct Hf as (Hf1 & Hf2 & Hf3 & Hf4 & Hf5).
  assert (list_ascii_of_string (make_quoteId uuid)
          = "q"%char :: "-"%char :: g1 ++ g2 ++ "4"%char :: g3) as Hid.
  { rewrite make_quoteId_list, Hk. unfold assemble. f_equal. f_equal.
    assert (v ≠ "-"%char) as Hvh.
    { intros ->. apply (bool_decide_eq_true_2 _) in Hv. vm_compute in Hv. discriminate Hv. }
    rewrite filter_app, filter_hyphen, filter_app, filter_hyphen, filter_other by done.
    rewrite filter_app, filter_hyphen, filter_other by done.
    rewrite filter_app, filter_hyphen.
    rewrite !hex_not_hyphen by done.
    assert (g1 ++ g2 ++ "4"%char :: g3 ++ v :: g4 ++ g5
            = (g1 ++ g2 ++ "4"%char :: g3) ++ v :: g4 ++ g5) as ->
      by (by rewrite <- !app_assoc).
    apply take_app_length'. rewrite !length_app. simpl. lia. }
  split; [|split].
  - apply list_ascii_of_string_inj. rewrite Hid, !append_list, !substring_list, Hk.
    unfold assemble. simpl. rewrite drop_0.
    rewrite take_app_length' by done.
    assert (drop 9 (g1 ++ "-"%char :: g2 ++ "-"%char :: "4"%char :: g3
                      ++ "-"%char :: v :: g4 ++ "-"%char :: g5)
            = g2 ++ "-"%char :: "4"%char :: g3 ++ "-"%char :: v :: g4 ++ "-"%char :: g5) as ->.
    { change ("-"%char :: g2 ++ ?x) with (["-"%char] ++ g2 ++ x).
      rewrite app_assoc. apply drop_app_length'. rewrite length_app. simpl. lia. }
    rewrite take_app_length' by done.
    assert (drop 14 (g1 ++ "-"%char :: g2 ++ "-"%char :: "4"%char :: g3
                       ++ "-"%char :: v :: g4 ++ "-"%char :: g5)
            = "4"%char :: g3 ++ "-"%char :: v :: g4 ++ "-"%char :: g5) as ->.
    { change (g1 ++ "-"%char :: g2 ++ "-"%char :: ?x) with (g1 ++ ["-"%char] ++ g2 ++ ["-"%char] ++ x).
      rewrite !app_assoc. apply drop_app_length'. rewrite !length_app. simpl. lia. }
    change ("4"%char :: g3 ++ ?x) with (("4"%char :: g3) ++ x).
    rewrite take_app_length' by (simpl; lia). done.
  - rewrite <- length_list_ascii_of_string, Hid. simpl. rewrite !length_app. simpl. lia.
  - assert (∀ (s : string) (n : nat), get n s = list_ascii_of_string s !! n) as Hget.
    { induction s as [|c s IH]; intros [|n]; simpl; done. }
    rewrite Hget, Hid.
    change ("q"%char :: "-"%char :: g1 ++ g2 ++ ?x) with (["q"%char; "-"%char] ++ g1 ++ g2 ++ x).
    rewrite !app_assoc.
    rewrite lookup_app_r; rewrite !length_app; simpl; [|lia].
    by replace (12 - (length g1 + length g2))%nat with 0%nat by lia.
Qed.

End QuoteIds.

(** ** The quote store over many creations *)

Section QuoteStoreRuns.
Import Http QuotesService Tally.
Implicit Types (cs : list Creation) (s : State) (id : string).

Lemma createQuotes_cons c cs s : createQuotes (c :: cs) s = createQuotes cs (step c s).
Proof. reflexivity. Qed.

Lemma createQuotes_snoc cs c s : createQuotes (cs ++ [c]) s = step c (createQuotes cs s).
Proof. unfold createQuotes. by rewrite foldl_app. Qed.

Lemma step_lookup c s id :
  quotesDb (step c s) !! id
    = if decide (make_quoteId (c_uuid c) = id)
      then (λ q, q) <$> quotesDb (step c s) !! make_quoteId (c_uuid c)
      else quotesDb s !! id.
Proof.
  case_decide as Hid; [subst; by destruct (_ !! _)|].
  by apply createQuote_other.
Qed.

Lemma step_own_id c s :
  ∃ q, quotesDb (step c s) !! make_quoteId (c_uuid c) = Some q ∧
       quoteId q = make_quoteId (c_uuid c) ∧
       (createQuote (c_dto c) (c_dispatch c) (c_uuid c) (c_t1 c) (c_t2 c) s).1 = inr q.
Proof.
  unfold step.
  destruct (createQuote_stores (c_dto c) (c_dispatch c) (c_uuid c) (c_t1 c) (c_t2 c) s)
    as (q & -> & Hid & _).
  exists q. simpl. rewrite <- Hid. split; [apply lookup_insert_eq|done].
Qed.

Lemma keyed_by_id_step c s : keyed_by_id s → keyed_by_id (step c s).
Proof.
  intros Hk id q. rewrite step_lookup. case_decide as Hid.
  - subst. destruct (step_own_id c s) as (q' & -> & Hq & _). by intros [= <-].
  - apply Hk.
Qed.

Lemma keyed_by_id_run cs s : keyed_by_id s → keyed_by_id (createQuotes cs s).
Proof.
  revert s. induction cs as [|c cs IH]; intros s Hk; [done|].
  rewrite createQuotes_cons. apply IH. by apply keyed_by_id_step.
Qed.

Lemma run_holds cs s id :
  is_Some (quotesDb (createQuotes cs s) !! id) ↔
  is_Some (quotesDb s !! id) ∨ id ∈ ids cs.
Proof.
  revert s. induction cs as [|c cs IH]; intros s.
  - simpl. split; [auto|]. intros [H|H]; [done|]. by apply elem_of_nil in H.
  - rewrite createQuotes_cons, IH, step_lookup.
    change (ids (c :: cs)) with (make_quoteId (c_uuid c) :: ids cs).
    rewrite elem_of_cons. case_decide as Hid.
    + subst. destruct (step_own_id c s) as (q & -> & _). simpl.
      split; [intros _; right; by left|intros _; left; by eexists].
    + split; intros [H|H]; auto. destruct H as [->|H]; [done|auto].
Qed.

(** X14. Starting from the empty store, after any run of creations a lookup
    succeeds exactly for the ids handed out in the run, and what it
    returns carries the id that was asked for; every other id gets the
    404 of [getQuoteById]. *)
Theorem lookup_after_creations cs id :
  let s := createQuotes cs {| quotesDb := ∅; quotesCreatedTotal := ∅ |} in
  (id ∈ ids cs → ∃ q, getQuoteById id s = inr q ∧ quoteId q = id) ∧
  (id ∉ ids cs → getQuoteById id s = inl (NotFoundException (not_found id))).
Proof.
  set (s0 := {| quotesDb := ∅; quotesCreatedTotal := ∅ |}). simpl.
  assert (keyed_by_id s0) as Hk0 by (intros i q Hi; simpl in Hi; by rewrite lookup_empty in Hi).
  pose proof (keyed_by_id_run cs s0 Hk0) as Hk.
  pose proof (run_holds cs s0 id) as Hh. unfold getQuoteById. split.
  - intros Hin. destruct (proj2 Hh (or_intror Hin)) as [q Hq].
    rewrite Hq. exists q. split; [done|]. by apply Hk.
  - intros Hout. destruct (quotesDb (createQuotes cs s0) !! id) as [q|] eqn:Hq; [|done].
    destruct (proj1 Hh (ex_intro _ q eq_refl)) as [[x Hx]|Hin]; [|done].
    simpl in Hx. by rewrite lookup_empty in Hx.
Qed.

(** X15. The store is written with [Map.set]: a creation that is given an
    id already in the store replaces the quote under it. The lookup then
    returns the new quote, the old one can no longer be read, and the
    store holds the same ids as before. *)
Theorem createQuote_replaces_on_same_id dto d uuid t1 t2 s old :
  quotesDb s !! make_quoteId uuid = Some old →
  ∃ q, (createQuote dto d uuid t1 t2 s).1 = inr q ∧
       documentId q = dto_documentId dto ∧
       createdAt q = t1 ∧
       getQuoteById (make_quoteId uuid) (createQuote dto d uuid t1 t2 s).2 = inr q ∧
       dom (quotesDb (createQuote dto d uuid t1 t2 s).2) = dom (quotesDb s).
Proof.
  intros Hold. unfold createQuote.
  destruct (fire_value d dto) as (r & -> & _). eexists. split; [done|].
  cbn [fst snd quotesDb quoteId documentId createdAt].
  split; [done|]. split; [done|]. split.
  - unfold getQuoteById. simpl. by rewrite lookup_insert_eq.
  - rewrite dom_insert_L. apply elem_of_dom_2 in Hold.
    apply subseteq_union_1_L. by apply singleton_subseteq_l.
Qed.

Lemma inc_lookup (l l' : string * string) (c : gmap (string * string) nat) :
  default O (inc l c !! l') = (default O (c !! l') + (if decide (l = l') then 1 else 0))%nat.
Proof.
  unfold inc. case_decide as Hl.
  - subst. rewrite lookup_insert_eq. simpl. lia.
  - rewrite lookup_insert_ne by done. lia.
Qed.

Lemma step_counter c s l :
  default O (quotesCreatedTotal (step c s) !! l)
    = (default O (quotesCreatedTotal s !! l) + (if decide (label c = l) then 1 else 0))%nat.
Proof.
  unfold step, label, createQuote.
  destruct (fire_value (c_dispatch c) (c_dto c)) as (r & -> & _).
  cbn [snd quotesCreatedTotal status documentType]. apply inc_lookup.
Qed.

(** X16. The counter [quotes_created_total] counts creations, not stored
    quotes: after a run, the count under each (status, document type)
    has grown by the number of creations of the run with that status
    and type, whether or not their ids collided. *)
Theorem counter_counts_creations cs s (l : string * string) :
  default O (quotesCreatedTotal (createQuotes cs s) !! l)
    = (default O (quotesCreatedTotal s !! l) + length (filter (λ c, label c = l) cs))%nat.
Proof.
  revert s. induction cs as [|c cs IH]; intros s; [simpl; lia|].
  rewrite createQuotes_cons, IH, step_counter, filter_cons.
  case_decide; simpl; lia.
Qed.

End QuoteStoreRuns.

(** ** The exception filter *)

Section FilterFacts.
Import Http QuotesService HttpExceptionFilter.
Variable HttpStatus : Z → option string.
Implicit Types (ex : Caught) (rid : option string) (ts : string).

Lemma with_field_lookup_ne (k k' : string) v (o : gmap string JsonValue) :
  k ≠ k' → with_field k v o !! k' = o !! k'.
Proof. intros Hne. destruct v; simpl; [by rewrite lookup_insert_ne|done]. Qed.

Lemma with_field_lookup_some (k : string) v (o : gmap string JsonValue) :
  with_field k (Some v) o !! k = Some v.
Proof. apply lookup_insert_eq. Qed.

(** Unless the response has been started already, in which case the
    filter writes nothing, every exception is answered: an
    [HttpException] with its own status, anything else with 500; and
    the body always has a [code], the request id (empty when the
    request has none) and the timestamp. *)
Lemma catch_answers ex rid ts :
  catch HttpStatus ex true rid ts = None ∧
  ∃ body,
    catch HttpStatus ex false rid ts
      = Some (match ex with IsHttp st _ _ => st | NotHttp _ => 500 end, body) ∧
    (∃ c, body !! "code" = Some c) ∧
    body !! "requestId" = Some (JString (default "" rid)) ∧
    body !! "timestamp" = Some (JString ts).
Proof.
  split; [done|]. unfold catch.
  destruct ex as [st resp msg|msg].
  - destruct resp as [str|fields].
    + eexists. split; [done|]. split.
      * eexists. rewrite with_field_lookup_ne by done. apply with_field_lookup_some.
      * rewrite !with_field_lookup_ne by done. rewrite with_field_lookup_some.
        split; [done|]. rewrite !with_field_lookup_ne by done.
        apply with_field_lookup_some.
    + case_bool_decide as Hc.
      * eexists. split; [done|]. split.
        -- destruct Hc as [c Hc]. exists c. by rewrite !lookup_insert_ne.
        -- split; [by rewrite lookup_insert_ne, lookup_insert_eq|apply lookup_insert_eq].
      * eexists. split; [done|]. split.
        -- eexists. rewrite with_field_lookup_ne by done. apply with_field_lookup_some.
        -- rewrite !with_field_lookup_ne by done. rewrite with_field_lookup_some.
           split; [done|]. rewrite !with_field_lookup_ne by done.
           apply with_field_lookup_some.
  - eexists. split; [done|]. split; [eexists|split]; by simplify_map_eq.
Qed.

(** X17. Unless the response has been started already, in which case
    the filter writes nothing, every exception is answered: an
    [HttpException] with its own status, anything else with 500; and
    the body always has a [code], the request id (empty when the
    request has none) and the timestamp. *)
Theorem catch_always_answers_with_code ex rid ts :
  catch HttpStatus ex true rid ts = None ∧
  ∃ body,
    catch HttpStatus ex false rid ts
      = Some (match ex with IsHttp st _ _ => st | NotHttp _ => 500 end, body) ∧
    (∃ c, body !! "code" = Some c) ∧
    body !! "requestId" = Some (JString (default "" rid)) ∧
    body !! "timestamp" = Some (JString ts).
Proof. apply catch_answers. Qed.

Lemma catch_structured st fields msg rid ts :
  is_Some (fields !! "code") →
  ∃ body,
    catch HttpStatus (IsHttp st (RObject fields) msg) false rid ts = Some (st, body) ∧
    (∀ k, k ≠ "requestId" → k ≠ "timestamp" → body !! k = fields !! k) ∧
    body !! "requestId" = Some (JString (default "" rid)) ∧
    body !! "timestamp" = Some (JString ts).
Proof.
  intros Hc. unfold catch. rewrite bool_decide_eq_true_2 by done.
  eexists. split; [done|]. split; [|split].
  - intros k H1 H2. by rewrite !lookup_insert_ne.
  - by rewrite lookup_insert_ne, lookup_insert_eq.
  - apply lookup_insert_eq.
Qed.

(** X18. A response object that has a [code] is passed on as it is: every
    property other than [requestId] and [timestamp] reaches the client
    unchanged, and those two are the filter's, also when the object had
    properties of these names. *)
Theorem catch_passes_structured_response st fields msg rid ts :
  is_Some (fields !! "code") →
  ∃ body,
    catch HttpStatus (IsHttp st (RObject fields) msg) false rid ts = Some (st, body) ∧
    (∀ k, k ≠ "requestId" → k ≠ "timestamp" → body !! k = fields !! k) ∧
    body !! "requestId" = Some (JString (default "" rid)) ∧
    body !! "timestamp" = Some (JString ts).
Proof. apply catch_structured. Qed.

(** An error that is not an [HttpException] is answered with the same
    fixed body whatever it says: its message does not reach the client. *)
Theorem catch_hides_unexpected_errors (m1 m2 : string) sent rid ts :
  catch HttpStatus (NotHttp m1) sent rid ts = catch HttpStatus (NotHttp m2) sent rid ts ∧
  ∃ body,
    catch HttpStatus (NotHttp m1) false rid ts = Some (500, body) ∧
    body !! "code" = Some (JString "INTERNAL_SERVER_ERROR") ∧
    body !! "message" = Some (JString "An unexpected error occurred").
Proof.
  split; [done|]. unfold catch. eexists. split; [done|]. split; by simplify_map_eq.
Qed.

Lemma json_of_code (b : ErrorBody) : json_of b !! "code" = Some (JString (code b)).
Proof. unfold json_of. by simplify_map_eq. Qed.

(** The exceptions the service itself throws (the 400s of the
    idempotency interceptor, the 404 of [getQuoteById]) reach the client
    with their own status, code, error and message. *)
Theorem service_exception_response st (b : ErrorBody) rid ts :
  ∃ body,
    catch HttpStatus (caught (HttpException st b)) false rid ts = Some (st, body) ∧
    body !! "status" = Some (JNumber (JsNumber.of_Z (Http.status b))) ∧
    body !! "code" = Some (JString (code b)) ∧
    body !! "error" = Some (JString (error b)) ∧
    body !! "message" = Some (JString (message b)).
Proof.
  simpl. destruct (catch_structured st (json_of b) (message b) rid ts)
    as (body & Hc & Hk & _); [rewrite json_of_code; by eexists|].
  exists body. split; [done|].
  rewrite !Hk by done. unfold json_of.
  repeat split; by simplify_map_eq.
Qed.

(** X19. Asking for a quote id the store does not hold is answered with
    status 404, code NOT_FOUND and a message that quotes the id. *)
Theorem unknown_quote_is_answered_404 (id : string) (s : State) rid ts :
  quotesDb s !! id = None →
  ∃ e body,
    getQuoteById id s = inl e ∧
    catch HttpStatus (caught e) false rid ts = Some (404, body) ∧
    body !! "code" = Some (JString "NOT_FOUND") ∧
    body !! "message"
      = Some (JString ("Quote with id " +:+ String "034"%char id
                       +:+ String "034"%char " not found")).
Proof.
  intros Hid. unfold getQuoteById. rewrite Hid. eexists. simpl.
  destruct (catch_structured 404 (json_of (not_found id)) (message (not_found id)) rid ts)
    as (body & Hc & Hk & _); [rewrite json_of_code; by eexists|].
  exists body. split; [done|]. split; [exact Hc|].
  rewrite !Hk by done. unfold json_of. split; by simplify_map_eq.
Qed.

End FilterFacts.

(** ** The guard *)

Section GuardFacts.
Import Http AuthGuard.
Context {Claims : Type}.
Variable decode : string → option Claims.

Lemma split_on_cons_ne sep (c : ascii) (s : list ascii) :
  c ≠ sep →
  split_on sep (c :: s)
    = match split_on sep s with
      | seg :: segs => (c :: seg) :: segs
      | [] => [[c]]
      end.
Proof. intros Hne. simpl. by rewrite bool_decide_eq_false_2. Qed.

Lemma split_on_none sep (s : list ascii) : sep ∉ s → split_on sep s = [s].
Proof.
  induction s as [|c s IH]; [done|]. intros Hn.
  apply not_elem_of_cons in Hn as [Hc Hs].
  rewrite split_on_cons_ne by done. by rewrite IH.
Qed.

Lemma split_on_app sep (a b : list ascii) :
  sep ∉ a → split_on sep (a ++ sep :: b) = a :: split_on sep b.
Proof.
  induction a as [|c a IH]; intros Hn.
  - simpl. by rewrite bool_decide_eq_true_2.
  - apply not_elem_of_cons in Hn as [Hc Ha].
    rewrite <- app_comm_cons, split_on_cons_ne by done. by rewrite IH.
Qed.

Lemma base64url_not_sep (c : ascii) :
  Regex.in_class false c base64url = true → c ≠ " "%char ∧ c ≠ "."%char.
Proof.
  destruct c as [[] [] [] [] [] [] [] []]; vm_compute; intros H;
    first [discriminate H | split; discriminate].
Qed.

Lemma segment_no_sep (s : string) :
  segment s → (" "%char ∉ list_ascii_of_string s) ∧ ("."%char ∉ list_ascii_of_string s).
Proof.
  intros [_ Hf]. induction Hf as [|c l Hc _ [IH1 IH2]]; [split; apply not_elem_of_nil|].
  apply base64url_not_sep in Hc as [H1 H2].
  split; apply not_elem_of_cons; auto.
Qed.

Lemma plus_loop_app k cls (g s : list ascii) :
  g ≠ [] → Forall (λ c, Regex.in_class false c cls = true) g →
  k s = true → plus_loop k cls (g ++ s) = true.
Proof.
  intros Hne Hf Hk. induction Hf as [|c g Hc Hf IH]; [done|].
  simpl. rewrite Hc. simpl. destruct g as [|c' g].
  - simpl. rewrite Hk. apply orb_true_r.
  - rewrite IH by done. done.
Qed.

Lemma segment_chars (s : string) : segment s → list_ascii_of_string s ≠ [].
Proof. intros [Hne _] H. apply Hne. by destruct s. Qed.

Lemma test_jwtPattern (h p sg : string) :
  segment h → segment p → segment sg →
  test jwtPattern (h +:+ "." +:+ p +:+ "." +:+ sg) = true.
Proof.
  intros Hh Hp Hs. unfold test, jwtPattern.
  rewrite !append_list. cbn [list_ascii_of_string app].
  cbn [match_q quant qcls dot].
  apply plus_loop_app; [by apply segment_chars|apply Hh|].
  cbn [match_q quant qcls dot app]. rewrite andb_true_l.
  apply plus_loop_app; [by apply segment_chars|apply Hp|].
  cbn [match_q quant qcls dot app]. rewrite andb_true_l.
  rewrite <- (app_nil_r (list_ascii_of_string sg)).
  apply plus_loop_app; [by apply segment_chars|apply Hs|done].
Qed.

Lemma split_dot (h p sg : string) :
  segment h → segment p → segment sg →
  split "." (h +:+ "." +:+ p +:+ "." +:+ sg) = [h; p; sg].
Proof.
  intros Hh Hp Hs. unfold split. rewrite !append_list. cbn [list_ascii_of_string app].
  rewrite split_on_app by by apply segment_no_sep.
  rewrite split_on_app by by apply segment_no_sep.
  rewrite split_on_none by by apply segment_no_sep.
  cbn [fmap list_fmap]. by rewrite !string_of_list_ascii_of_string.
Qed.

Lemma split_bearer (token : string) :
  " "%char ∉ list_ascii_of_string token →
  split " " ("Bearer " +:+ token) = ["Bearer"; token].
Proof.
  intros Hn. unfold split. rewrite append_list.
  change (list_ascii_of_string "Bearer ")
    with (list_ascii_of_string "Bearer" ++ [" "%char]).
  rewrite <- app_assoc. cbn [app].
  rewrite split_on_app.
  - rewrite split_on_none by done. cbn [fmap list_fmap].
    by rewrite !string_of_list_ascii_of_string.
  - intros Hin. apply (bool_decide_eq_true_2 _) in Hin. vm_compute in Hin. discriminate Hin.
Qed.

Lemma token_no_space (h p sg : string) :
  segment h → segment p → segment sg →
  " "%char ∉ list_ascii_of_string (h +:+ "." +:+ p +:+ "." +:+ sg).
Proof.
  intros Hh Hp Hs. rewrite !append_list. cbn [list_ascii_of_string app].
  repeat (rewrite not_elem_of_app || rewrite not_elem_of_cons).
  pose proof (segment_no_sep h Hh) as []. pose proof (segment_no_sep p Hp) as [].
  pose proof (segment_no_sep sg Hs) as [].
  repeat split; first [done | discriminate | apply not_elem_of_nil].
Qed.

Lemma prefix_append (a b : string) : String.prefix a (a +:+ b) = true.
Proof.
  induction a as [|c a IH]; simpl; [by destruct b|].
  by destruct (ascii_dec c c).
Qed.

Lemma canActivate_bearer (token : string) env devToken :
  " "%char ∉ list_ascii_of_string token →
  canActivate decode (Some ("Bearer " +:+ token)) env devToken
    = if bool_decide (env ≠ Some "production")
         && bool_decide (default "" devToken ≠ "")
         && bool_decide (Some token = devToken)
      then inr DevUser
      else if negb (test jwtPattern token) then
        inl (unauthorized "INVALID_TOKEN" "Invalid token format.")
      else
        match decode (default "undefined" (split "." token !! 1%nat)) with
        | Some payload => inr (JwtUser payload)
        | None => inl (unauthorized "INVALID_TOKEN" "Token validation failed.")
        end.
Proof.
  intros Hn. unfold canActivate. cbv zeta.
  change (default "" (Some ("Bearer " +:+ token))) with ("Bearer " +:+ token).
  rewrite split_bearer by done.
  change (["Bearer"; token] !! 1%nat) with (Some token).
  change (default "undefined" (Some token)) with token.
  rewrite bool_decide_eq_false_2 by done.
  by rewrite prefix_append.
Qed.

End GuardFacts.

Section GuardTheorems.
Import Http AuthGuard.
Context {Claims : Type}.
Variable decode : string → option Claims.

(** X21. The guard never answers [false]: it lets the request through with
    a user, or throws a 401. The 401 has code MISSING_TOKEN exactly when
    the Authorization header is absent or does not start with
    [Bearer ] (capital B, one space), and code INVALID_TOKEN otherwise. *)
Theorem guard_user_or_401 authorization env devToken :
  let r := canActivate decode authorization env devToken in
  ((∃ u, r = inr u) ∨
   (∃ c m, r = inl (unauthorized c m) ∧ (c = "MISSING_TOKEN" ∨ c = "INVALID_TOKEN"))) ∧
  ((∃ m, r = inl (unauthorized "MISSING_TOKEN" m)) ↔
   String.prefix "Bearer " (default "" authorization) = false).
Proof.
  simpl. unfold canActivate. cbv zeta.
  destruct (String.prefix "Bearer " (default "" authorization)) eqn:Hp.
  - assert (default "" authorization ≠ "") as Hne
      by (intros H; rewrite H in Hp; discriminate Hp).
    rewrite bool_decide_eq_false_2 by done. cbn [negb orb].
    destruct (_ && _ && _).
    { split; [left; by eexists|]. split; [by intros [m [=]]|done]. }
    destruct (negb _).
    { split; [right; do 2 eexists; split; [done|by right]|].
      split; [by intros [m [=]]|done]. }
    destruct (decode _).
    + split; [left; by eexists|]. split; [by intros [m [=]]|done].
    + split; [right; do 2 eexists; split; [done|by right]|].
      split; [by intros [m [=]]|done].
  - rewrite orb_true_r.
    split; [right; do 2 eexists; split; [done|by left]|].
    split; [done|]. intros _. by eexists.
Qed.

(** X22. In production a token of three base64url parts is judged on its
    middle part alone: the request is let through with the payload
    decoded from it, or refused when it does not decode. The first and
    the last part, the signature, are not looked at, and neither is the
    configured development token. *)
Theorem guard_judges_payload_only (h p sg : string) devToken :
  segment h → segment p → segment sg →
  canActivate decode (Some ("Bearer " +:+ h +:+ "." +:+ p +:+ "." +:+ sg))
    (Some "production") devToken
    = match decode p with
      | Some payload => inr (JwtUser payload)
      | None => inl (unauthorized "INVALID_TOKEN" "Token validation failed.")
      end.
Proof.
  intros Hh Hp Hs.
  rewrite canActivate_bearer by by apply token_no_space.
  rewrite (bool_decide_eq_false_2 (Some "production" ≠ Some "production")) by (intros H; by apply H).
  cbn [andb]. rewrite test_jwtPattern by done. cbn [negb].
  by rewrite split_dot.
Qed.

(** X23. Outside production, with a development token configured (not
    empty, no space in it), presenting that token lets the request
    through as the development user, whatever the token looks like. In
    production the configured development token is not consulted: every
    Authorization header gets the answer it gets with no development
    token configured, and the header that presents the development
    token is judged as any other token, on its shape and on the payload
    decoded from its middle part. *)
Theorem guard_dev_token (d : string) env :
  d ≠ "" → " "%char ∉ list_ascii_of_string d → env ≠ Some "production" →
  canActivate decode (Some ("Bearer " +:+ d)) env (Some d) = inr DevUser ∧
  (∀ authorization devToken,
     canActivate decode authorization (Some "production") devToken
       = canActivate decode authorization (Some "production") None) ∧
  canActivate decode (Some ("Bearer " +:+ d)) (Some "production") (Some d)
    = if negb (test jwtPattern d) then
        inl (unauthorized "INVALID_TOKEN" "Invalid token format.")
      else
        match decode (default "undefined" (split "." d !! 1%nat)) with
        | Some payload => inr (JwtUser payload)
        | None => inl (unauthorized "INVALID_TOKEN" "Token validation failed.")
        end.
Proof.
  intros Hne Hsp Henv.
  assert (bool_decide (Some "production" ≠ Some "production") = false) as Hprod
    by (apply bool_decide_eq_false_2; intros H; by apply H).
  split; [|split].
  - rewrite canActivate_bearer by done. by rewrite !bool_decide_eq_true_2.
  - intros authorization devToken. unfold canActivate. cbv zeta.
    by rewrite Hprod.
  - rewrite canActivate_bearer by done. by rewrite Hprod.
Qed.

End GuardTheorems.

(** ** The request id *)

Section RequestIdFacts.
Import Http QuotesService HttpExceptionFilter.
Context {Data App : Type}.
Variable HttpStatus : Z → option string.

(** X20. The id a request is given is the client's X-Request-ID header as
    it is when that is not empty, else the generated one; the handler
    is called with it, its outcome is passed on as it is, and the
    X-Request-ID response header carries the same id. When the handler
    throws, the error body the filter writes has that id as well. *)
Theorem request_id_is_echoed (req : RequestIdInterceptor.Request) (uuid : string)
    (next : RequestIdInterceptor.CallHandler Data App)
    (res : gmap string string) (a : App) (ts : string) :
  let r := RequestIdInterceptor.intercept req uuid next res a in
  (∀ h, RequestIdInterceptor.headers req !! "x-request-id" = Some h → h ≠ "" →
        RequestIdInterceptor.requestId (RequestIdInterceptor.request r) = Some h) ∧
  (RequestIdInterceptor.headers req !! "x-request-id" = None ∨
   RequestIdInterceptor.headers req !! "x-request-id" = Some "" →
        RequestIdInterceptor.requestId (RequestIdInterceptor.request r) = Some uuid) ∧
  RequestIdInterceptor.resHeaders r !! "X-Request-ID"
    = RequestIdInterceptor.requestId (RequestIdInterceptor.request r) ∧
  (RequestIdInterceptor.stream r, RequestIdInterceptor.app r)
    = next (RequestIdInterceptor.request r) a ∧
  ∀ e, RequestIdInterceptor.stream r = inl e →
       ∃ st body,
         catch HttpStatus (caught e) false
           (RequestIdInterceptor.requestId (RequestIdInterceptor.request r)) ts
           = Some (st, body) ∧
         body !! "requestId"
           = JString <$> RequestIdInterceptor.resHeaders r !! "X-Request-ID".
Proof.
  simpl. unfold RequestIdInterceptor.intercept.
  set (rid := match RequestIdInterceptor.headers req !! "x-request-id" with
              | Some h => if bool_decide (h = "") then uuid else h
              | None => uuid
              end).
  set (req' := {| RequestIdInterceptor.headers := RequestIdInterceptor.headers req;
                  RequestIdInterceptor.requestId := Some rid |}).
  destruct (next req' a) as [r a'] eqn:Hn. simpl.
  split; [|split; [|split; [|split]]].
  - intros h Hh Hne. unfold rid. rewrite Hh. by rewrite bool_decide_eq_false_2.
  - intros [Hh|Hh]; unfold rid; by rewrite Hh.
  - apply lookup_insert_eq.
  - done.
  - intros e _. destruct (catch_answers HttpStatus (caught e) (Some rid) ts)
      as (_ & body & Hc & _ & Hr & _).
    do 2 eexists. split; [exact Hc|]. rewrite Hr, lookup_insert_eq. done.
Qed.

End RequestIdFacts.

(** ** Creating a quote through the interceptor *)

Section ControllerFacts.
Import Http IdempotencyService IdempotencyInterceptor QuotesService QuotesController.
Context {Payload : Type}.
Variable validate : Payload → Exception + CreateQuoteDto.
Implicit Types (req : Request Payload) (svc : IdempotencyService.t Quote) (s : State).
Implicit Types (d : Draws) (key : string).

Lemma create_valid d req (a : App) dto :
  validate (payload req) = inr dto →
  ∃ q, create validate d req a
       = (Returned q,
          {| state := {| quotesDb := <[quoteId q := q]> (quotesDb (state a));
                         quotesCreatedTotal :=
                           inc (Status_to_string (status q), documentType q)
                               (quotesCreatedTotal (state a)) |};
             location := Some ("/api/v1/quotes/" +:+ quoteId q) |}) ∧
       quoteId q = make_quoteId (uuid d) ∧
       documentId q = dto_documentId dto.
Proof.
  intros Hv. unfold create. rewrite Hv.
  unfold createQuote.
  destruct (fire_value (dispatch d) (with_key dto (idempotencyKey req))) as (r & -> & _).
  eexists. split; [done|]. done.
Qed.

(** X24. A POST with a well-formed key that misses the store and a body
    that passes validation creates one quote: the quote is the response
    body and is recorded under the key; the X-Idempotency-Result header
    says created; the Location header is [/api/v1/quotes/] followed by
    the quote's id, and [getById] of that id returns the very quote. *)
Theorem post_creates_and_locates d req now now' svc svc1 s key dto :
  headers req !! "idempotency-key" = Some key →
  Regex.test UUID_V4 key = true →
  get now key svc = (None, svc1) →
  validate (payload req) = inr dto →
  let r := post validate d req now now' svc s in
  ∃ q, r.1 = Next q ∧
       store (service r.2) !! key = Some {| body := q; IdempotencyService.createdAt := now' |} ∧
       resHeaders (res r.2) !! "X-Idempotency-Result" = Some "created" ∧
       location (app r.2) = Some ("/api/v1/quotes/" +:+ quoteId q) ∧
       getById (quoteId q) (state (app r.2)) = inr q ∧
       quoteId q = make_quoteId (uuid d).
Proof.
  intros Hh Ht Hg Hv. simpl. unfold post.
  set (w := {| service := svc; res := _; app := _; trace := [] |}).
  destruct (create_valid d (set_idempotencyKey key req) (app w) dto Hv)
    as (q & Hc & Hid & _).
  rewrite (intercept_miss_ok req now now' (create validate d) w key svc1 q _ Hh Ht Hg Hc).
  exists q. cbn [fst snd service res app].
  split; [done|]. split; [apply set_lookup|]. split; [apply lookup_insert_eq|].
  split; [done|]. split; [|done].
  unfold getById, getQuoteById. simpl. by rewrite lookup_insert_eq.
Qed.

(** X25. A repeat of the key within the lifetime, with any body at all and
    whatever the breaker would do, is answered with status 200 and the
    quote of the first request; it creates nothing (the quote store and
    the counters are the ones it found), and its response has the
    X-Idempotency-Result header, cached, and no Location. *)
Theorem post_replay_creates_nothing d req now now' svc s key (e : CachedEntry Quote) :
  headers req !! "idempotency-key" = Some key →
  Regex.test UUID_V4 key = true →
  store svc !! key = Some e →
  now - IdempotencyService.createdAt e < ttlMs svc →
  let r := post validate d req now now' svc s in
  r.1 = EMPTY ∧
  sent (res r.2) = Some (200, body e) ∧
  resHeaders (res r.2) = {[ "X-Idempotency-Result" := "cached" ]} ∧
  location (app r.2) = None ∧
  state (app r.2) = s ∧
  service r.2 = svc.
Proof.
  intros Hh Ht Hk Hlive. simpl. unfold post.
  set (w := {| service := svc; res := _; app := _; trace := [] |}).
  rewrite (intercept_hit req now now' (create validate d) w key e Hh Ht)
    by (by apply get_live).
  done.
Qed.

(** X26. A body that fails validation is refused with the pipe's exception
    after the key has been accepted and looked up; nothing is created,
    nothing is recorded under the key, and the same key can be used
    again. *)
Theorem post_invalid_body_leaves_no_trace d req now now' svc svc1 s key err :
  headers req !! "idempotency-key" = Some key →
  Regex.test UUID_V4 key = true →
  get now key svc = (None, svc1) →
  validate (payload req) = inl err →
  let r := post validate d req now now' svc s in
  r.1 = Errored err ∧
  state (app r.2) = s ∧
  location (app r.2) = None ∧
  store (service r.2) !! key = None ∧
  resHeaders (res r.2) = ∅.
Proof.
  intros Hh Ht Hg Hv. simpl. unfold post.
  set (w := {| service := svc; res := _; app := _; trace := [] |}).
  assert (create validate d (set_idempotencyKey key req) (app w) = (Threw err, app w)) as Hc
    by (unfold create; simpl; by rewrite Hv).
  rewrite (intercept_miss_err req now now' (create validate d) w key svc1 err _ Hh Ht Hg Hc).
  cbn [fst snd service res app]. repeat split; try done.
  by apply (get_miss_gone now key svc).
Qed.

End ControllerFacts.

(** ** Publishing *)

Section PublisherFacts.
Import QuotesService PublisherService.
Implicit Types (cfg : Config) (sdk : Sdk) (p : PublisherService.t).

Lemma getSender_kept cfg sdk p s :
  sender p = Some s → getSender cfg sdk p = (inr (Some s), p).
Proof. intros H. unfold getSender. by rewrite H. Qed.

(** X27. The promise is rejected only when a sender has to be built (none
    yet, and a connection string or a namespace configured) and the SDK
    throws while building it. A failing send is logged and the promise
    fulfilled; with nothing configured nothing is sent and the service
    is unchanged. *)
Theorem publish_settles cfg sdk uuid now quote key p :
  let o := publishQuoteIssued cfg sdk uuid now quote key p in
  ((∃ err, settled o = inl err) ↔
   sender p = None ∧
   truthy (connectionString cfg) || truthy (namespace cfg) = true ∧
   constructs sdk && createsSender sdk = false) ∧
  (sender p = None → truthy (connectionString cfg) = false →
   truthy (namespace cfg) = false →
   o = {| settled := inr (); handed := None; logged := None; after := p |}) ∧
  (∀ m, handed o = Some m →
        settled o = inr () ∧
        logged o = Some (if sends sdk then LogPublished (quoteId quote) else LogFailed) ∧
        messageId m = uuid ∧ eventId (body m) = uuid ∧
        d_quoteId (data (body m)) = quoteId quote ∧
        ev_idempotencyKey (body m) = key).
Proof.
  simpl. unfold publishQuoteIssued, getSender.
  destruct (sender p) as [s|] eqn:Hs.
  - split; [|split].
    + split; [by intros [err [=]]|by intros [[=] _]].
    + done.
    + by intros m [= <-].
  - destruct (truthy (connectionString cfg)) eqn:Hc;
      [|destruct (truthy (namespace cfg)) eqn:Hn];
      try (destruct (constructs sdk); [destruct (createsSender sdk)|]); simpl;
      (split; [|split]);
      try done;
      try (split; [by intros [err [=]]|by intros (_ & ? & ?)]);
      try (split; [done|intros _; by eexists]);
      try (by intros m [= <-]).
Qed.

(** X28. Once the service has a sender it keeps it: whatever is configured
    later and whatever the SDK does, every call hands its message to
    that sender's SDK and is fulfilled, and the sender and the client
    after any run of calls are the ones before. *)
Theorem sender_is_built_once (cs : list Call) p (s : Sender) :
  sender p = Some s →
  publishAll cs p = p ∧
  Forall (λ c, ∃ m, handed (publish c p) = Some m ∧ settled (publish c p) = inr () ∧
                    messageId m = c_uuid c) cs.
Proof.
  intros Hs.
  assert (∀ c, after (publish c p) = p ∧
               ∃ m, handed (publish c p) = Some m ∧ settled (publish c p) = inr () ∧
                    messageId m = c_uuid c) as Hone.
  { intros c. unfold publish, publishQuoteIssued. rewrite (getSender_kept _ _ p s Hs).
    simpl. split; [done|]. by eexists. }
  split.
  - induction cs as [|c cs IH]; [done|].
    unfold publishAll in *. simpl. by rewrite (proj1 (Hone c)).
  - apply Forall_forall. intros c _. apply Hone.
Qed.

End PublisherFacts.

(** ** The further properties on sample data *)

Section MoreSamples.
Import Http IdempotencyService IdempotencyInterceptor.

Lemma lookups_do_not_prolong_witness :
  get (1000 + 86400000) Sample.key1 (get 2000 Sample.key1 Sample.service1).2
    = (None, {| store := delete Sample.key1 (store Sample.service1); ttlMs := 86400000 |}).
Proof.
  apply (lookups_do_not_prolong 2000 (1000 + 86400000) Sample.key1
           Sample.service1 Sample.entry1).
  - reflexivity.
  - reflexivity.
Defined.

(** An expired record of [key1] is still in the store after a lookup
    of [key2] at the same late hour. *)
Lemma get_evicts_only_its_key_witness :
  store (get 99999999999 Sample.key2 Sample.service1).2 !! Sample.key1
    = store Sample.service1 !! Sample.key1 ∧
  ttlMs (get 99999999999 Sample.key2 Sample.service1).2 = ttlMs Sample.service1.
Proof.
  apply (get_evicts_only_its_key 99999999999 Sample.key2 Sample.key1 Sample.service1).
  discriminate.
Defined.

Lemma intercept_touches_only_its_key_witness :
  store (service (intercept (Sample.request (Some Sample.key2) "body") 5000 5001
                    Sample.count_handler Sample.world1).2) !! Sample.key1
    = store (service Sample.world1) !! Sample.key1 ∧
  ttlMs (service (intercept (Sample.request (Some Sample.key2) "body") 5000 5001
                    Sample.count_handler Sample.world1).2)
    = ttlMs (service Sample.world1).
Proof.
  apply (intercept_touches_only_its_key
           (Sample.request (Some Sample.key2) "body") 5000 5001
           Sample.count_handler Sample.world1 Sample.key1).
  discriminate.
Defined.

Lemma serve_keeps_live_record_witness :
  store (service (Run.serve [Sample2.arrival Sample.key2 "a" 2000;
                             Sample2.arrival Sample.key1 "b" 3000;
                             Sample2.arrival Sample.key2 "c" 4000]
                    Sample.world1)) !! Sample.key1
    = Some Sample.entry1.
Proof.
  apply (serve_keeps_live_record _ Sample.world1 Sample.key1 Sample.entry1).
  - reflexivity.
  - repeat constructor.
Defined.

Lemma replays_never_run_handler_witness :
  service (Run.serve [Sample2.arrival Sample.key1 "a" 2000;
                      Sample2.arrival Sample.key1 "b" 3000] Sample.world1)
    = service Sample.world1 ∧
  app (Run.serve [Sample2.arrival Sample.key1 "a" 2000;
                  Sample2.arrival Sample.key1 "b" 3000] Sample.world1)
    = app Sample.world1 ∧
  trace (Run.serve [Sample2.arrival Sample.key1 "a" 2000;
                    Sample2.arrival Sample.key1 "b" 3000] Sample.world1)
    = trace Sample.world1 ++ replicate 2 (CacheGet Sample.key1).
Proof.
  apply (replays_never_run_handler
           [Sample2.arrival Sample.key1 "a" 2000; Sample2.arrival Sample.key1 "b" 3000]
           Sample.world1 Sample.key1 Sample.entry1).
  - reflexivity.
  - reflexivity.
  - repeat constructor.
Defined.

Lemma served_store_holds_valid_keys_witness :
  Regex.test UUID_V4 Sample.key2 = true.
Proof.
  apply (served_store_holds_valid_keys
           [Sample2.arrival Sample.key2 "a" 2000; Sample2.arrival "not-a-uuid" "b" 3000]
           Sample.world0 None Sample.key2).
  - reflexivity.
  - eexists. vm_compute. reflexivity.
Defined.

Lemma clear_forgets_witness :
  let w0 := {| service := clear (service Sample.world1); res := res Sample.world1;
               app := app Sample.world1; trace := trace Sample.world1 |} in
  let r := intercept (Sample.request (Some Sample.key1) "body") 2000 2001
             Sample.count_handler w0 in
  let h := Sample.count_handler
             (set_idempotencyKey Sample.key1 (Sample.request (Some Sample.key1) "body"))
             (app Sample.world1) in
  r.1 = outcome_of h.1 ∧ app r.2 = h.2 ∧
  ttlMs (service r.2) = ttlMs (service Sample.world1) ∧
  ∀ k, k ≠ Sample.key1 → store (service r.2) !! k = None.
Proof.
  apply (clear_forgets (Sample.request (Some Sample.key1) "body") 2000 2001
           Sample.count_handler Sample.world1 Sample.key1).
  - reflexivity.
  - reflexivity.
Defined.

Lemma repeat_within_ttl_witness :
  let r1 := intercept (Sample.request (Some Sample.key2) "four") 2000 2050
              Sample.count_handler Sample.world1 in
  let r2 := intercept (Sample.request (Some Sample.key2) "another body") 9000 9001
              Sample.failing_handler r1.2 in
  r1.1 = Next 4%nat ∧
  resHeaders (res r1.2) !! "X-Idempotency-Result" = Some "created" ∧
  r2.1 = EMPTY ∧
  sent (res r2.2) = Some (200, 4%nat) ∧
  resHeaders (res r2.2) !! "X-Idempotency-Result" = Some "cached" ∧
  app r2.2 = 1%nat ∧
  service r2.2 = service r1.2.
Proof.
  apply (repeat_within_ttl
           (Sample.request (Some Sample.key2) "four")
           (Sample.request (Some Sample.key2) "another body")
           2000 2050 9000 9001 Sample.count_handler Sample.failing_handler
           Sample.world1 Sample.key2 (service Sample.world1) 4%nat 1%nat).
  - reflexivity.
  - reflexivity.
  - reflexivity.
  - reflexivity.
  - reflexivity.
  - reflexivity.
Defined.

End MoreSamples.

Section MoreSamplesQuotes.
Import Http QuotesService.

Lemma make_quoteId_of_v4_witness :
  make_quoteId Sample.key1
    = "q-" +:+ substring 0 8 Sample.key1 +:+ substring 9 4 Sample.key1
        +:+ substring 14 4 Sample.key1 ∧
  String.length (make_quoteId Sample.key1) = 18%nat ∧
  get 14 (make_quoteId Sample.key1) = Some "4"%char.
Proof.
  apply (make_quoteId_of_v4 Sample.key1). reflexivity.
Defined.

(** A second creation that draws the identifier of [quote1] again. *)
Lemma createQuote_replaces_on_same_id_witness :
  ∃ q, (createQuote Sample.dto_auto ShortCircuited Sample.key2 "t1" "t2" Sample2.state1).1
         = inr q ∧
       documentId q = dto_documentId Sample.dto_auto ∧
       createdAt q = "t1" ∧
       getQuoteById (make_quoteId Sample.key2)
         (createQuote Sample.dto_auto ShortCircuited Sample.key2 "t1" "t2" Sample2.state1).2
         = inr q ∧
       dom (quotesDb (createQuote Sample.dto_auto ShortCircuited Sample.key2 "t1" "t2"
                        Sample2.state1).2)
         = dom (quotesDb Sample2.state1).
Proof.
  apply (createQuote_replaces_on_same_id Sample.dto_auto ShortCircuited Sample.key2
           "t1" "t2" Sample2.state1 Sample2.quote1).
  reflexivity.
Defined.

End MoreSamplesQuotes.

Section MoreSamplesFilter.
Import Http QuotesService HttpExceptionFilter.

Lemma catch_passes_structured_response_witness :
  ∃ body,
    catch Sample2.http_status
      (IsHttp 400 (RObject (json_of Sample2.validation_error)) "Request body validation failed")
      false (Some "req-1") "2026-01-01T00:00:00.000Z" = Some (400, body) ∧
    (∀ k, k ≠ "requestId" → k ≠ "timestamp" →
          body !! k = json_of Sample2.validation_error !! k) ∧
    body !! "requestId" = Some (JString (default "" (Some "req-1"))) ∧
    body !! "timestamp" = Some (JString "2026-01-01T00:00:00.000Z").
Proof.
  apply (catch_passes_structured_response Sample2.http_status 400
           (json_of Sample2.validation_error) "Request body validation failed"
           (Some "req-1") "2026-01-01T00:00:00.000Z").
  eexists. vm_compute. reflexivity.
Defined.

Lemma unknown_quote_is_answered_404_witness :
  ∃ e body,
    getQuoteById "q-nonexistent" Sample.state0 = inl e ∧
    catch Sample2.http_status (caught e) false None "2026-01-01T00:00:00.000Z"
      = Some (404, body) ∧
    body !! "code" = Some (JString "NOT_FOUND") ∧
    body !! "message"
      = Some (JString ("Quote with id " +:+ String "034"%char "q-nonexistent"
                       +:+ String "034"%char " not found")).
Proof.
  apply (unknown_quote_is_answered_404 Sample2.http_status "q-nonexistent" Sample.state0
           None "2026-01-01T00:00:00.000Z").
  reflexivity.
Defined.

End MoreSamplesFilter.

Section MoreSamplesGuard.
Import Http AuthGuard.

Lemma segment_sample (s : string) :
  s ≠ "" →
  forallb (λ c, Regex.in_class false c base64url) (list_ascii_of_string s) = true →
  segment s.
Proof.
  intros Hne Hf. split; [done|]. apply Forall_forall. intros c Hc.
  rewrite forallb_forall in Hf. apply Hf. by apply list_elem_of_In.
Qed.

(** A token whose signature part is not a signature of anything. *)
Lemma guard_judges_payload_only_witness :
  canActivate Sample2.decode
    (Some ("Bearer " +:+ "eyJhbGciOiJIUzI1NiJ9" +:+ "." +:+ "eyJzdWIiOiJ1MSJ9" +:+ "."
           +:+ "forged"))
    (Some "production") (Some "dev-token")
    = match Sample2.decode "eyJzdWIiOiJ1MSJ9" with
      | Some payload => inr (JwtUser payload)
      | None => inl (unauthorized "INVALID_TOKEN" "Token validation failed.")
      end.
Proof.
  apply (guard_judges_payload_only Sample2.decode "eyJhbGciOiJIUzI1NiJ9"
           "eyJzdWIiOiJ1MSJ9" "forged" (Some "dev-token")).
  - apply segment_sample; [discriminate|reflexivity].
  - apply segment_sample; [discriminate|reflexivity].
  - apply segment_sample; [discriminate|reflexivity].
Defined.

(** The token of the test suite, which is not shaped as a JWT: let
    through under test, refused in production. *)
Lemma guard_dev_token_witness :
  canActivate Sample2.decode (Some ("Bearer " +:+ "vitest-dev-token")) (Some "test")
    (Some "vitest-dev-token") = inr DevUser ∧
  canActivate Sample2.decode (Some ("Bearer " +:+ "vitest-dev-token")) (Some "production")
    (Some "vitest-dev-token")
    = inl (unauthorized "INVALID_TOKEN" "Invalid token format.").
Proof.
  assert ("vitest-dev-token" ≠ "") as Hne by discriminate.
  assert (" "%char ∉ list_ascii_of_string "vitest-dev-token") as Hsp.
  { intros Hin. apply (bool_decide_eq_true_2 _) in Hin. vm_compute in Hin. discriminate Hin. }
  assert (Some "test" ≠ Some "production") as Henv by discriminate.
  split.
  - exact (proj1 (guard_dev_token Sample2.decode "vitest-dev-token" (Some "test")
                    Hne Hsp Henv)).
  - exact (proj2 (proj2 (guard_dev_token Sample2.decode "vitest-dev-token" (Some "test")
                           Hne Hsp Henv))).
Defined.

End MoreSamplesGuard.

Section MoreSamplesController.
Import Http IdempotencyService IdempotencyInterceptor QuotesService QuotesController.

Lemma post_creates_and_locates_witness :
  let r := post Sample2.validate Sample2.draws
             (Sample2.post_request Sample.key2 (Some Sample.dto_auto)) 2000 2050
             Sample2.quote_service Sample.state0 in
  ∃ q, r.1 = Next q ∧
       store (service r.2) !! Sample.key2
         = Some {| body := q; IdempotencyService.createdAt := 2050 |} ∧
       resHeaders (res r.2) !! "X-Idempotency-Result" = Some "created" ∧
       location (app r.2) = Some ("/api/v1/quotes/" +:+ quoteId q) ∧
       getById (quoteId q) (state (app r.2)) = inr q ∧
       quoteId q = make_quoteId (uuid Sample2.draws).
Proof.
  apply (post_creates_and_locates Sample2.validate Sample2.draws
           (Sample2.post_request Sample.key2 (Some Sample.dto_auto)) 2000 2050
           Sample2.quote_service Sample2.quote_service Sample.state0 Sample.key2
           Sample.dto_auto).
  - reflexivity.
  - reflexivity.
  - reflexivity.
  - reflexivity.
Defined.

(** The key of [quote1] again, with no body at all. *)
Lemma post_replay_creates_nothing_witness :
  let r := post Sample2.validate Sample2.draws
             (Sample2.post_request Sample.key1 None) 2000 2050
             Sample2.quote_service Sample2.state1 in
  r.1 = EMPTY ∧
  sent (res r.2) = Some (200, Sample2.quote1) ∧
  resHeaders (res r.2) = {[ "X-Idempotency-Result" := "cached" ]} ∧
  location (app r.2) = None ∧
  state (app r.2) = Sample2.state1 ∧
  service r.2 = Sample2.quote_service.
Proof.
  apply (post_replay_creates_nothing Sample2.validate Sample2.draws
           (Sample2.post_request Sample.key1 None) 2000 2050
           Sample2.quote_service Sample2.state1 Sample.key1
           {| body := Sample2.quote1; IdempotencyService.createdAt := 1000 |}).
  - reflexivity.
  - reflexivity.
  - reflexivity.
  - reflexivity.
Defined.

Lemma post_invalid_body_leaves_no_trace_witness :
  let r := post Sample2.validate Sample2.draws
             (Sample2.post_request Sample.key2 None) 2000 2050
             Sample2.quote_service Sample2.state1 in
  r.1 = Errored (BadRequestException Sample2.validation_error) ∧
  state (app r.2) = Sample2.state1 ∧
  location (app r.2) = None ∧
  store (service r.2) !! Sample.key2 = None ∧
  resHeaders (res r.2) = ∅.
Proof.
  apply (post_invalid_body_leaves_no_trace Sample2.validate Sample2.draws
           (Sample2.post_request Sample.key2 None) 2000 2050
           Sample2.quote_service Sample2.quote_service Sample2.state1 Sample.key2
           (BadRequestException Sample2.validation_error)).
  - reflexivity.
  - reflexivity.
  - reflexivity.
  - reflexivity.
Defined.

End MoreSamplesController.

Section MoreSamplesPublisher.
Import PublisherService.

(** Two calls on a connected service while nothing is configured any
    more and the second send fails. *)
Lemma sender_is_built_once_witness :
  publishAll [Sample2.call "e1" true; Sample2.call "e2" false] Sample2.connected
    = Sample2.connected ∧
  Forall (λ c, ∃ m, handed (publish c Sample2.connected) = Some m ∧
                    settled (publish c Sample2.connected) = inr () ∧
                    messageId m = c_uuid c)
         [Sample2.call "e1" true; Sample2.call "e2" false].
Proof.
  apply (sender_is_built_once [Sample2.call "e1" true; Sample2.call "e2" false]
           Sample2.connected
           (mkSender (ViaConnectionString "Endpoint=sb://example/") "quotes.issued")).
  reflexivity.
Defined.

End MoreSamplesPublisher.
